(** * Crop / pad / interpolate geometry of [lit.networks.interpolation_layer]

    A shallow embedding of the classes [_ZoomNd], [Zoom2d] and [Zoom3d] of
    [src/lit/networks/interpolation_layer.py], and the properties of the
    per-axis crop/pad planner, the scale-factor normaliser and the batch
    driver.

    Numbers.  Python [int] is [Z].  A Python [float] (and every value of
    type [Number] that reaches the arithmetic) is an exact rational [Q]:
    the model has no rounding, no infinities and no NaN, so it agrees with
    IEEE doubles exactly where every intermediate value is representable
    (all concrete scenarios below use small dyadic values, for which this
    is the case).  [int(x)] truncates towards zero, [x % 2] is the floor
    remainder ([Z.modulo]), division by zero raises.

    Exceptions.  A function that may raise returns [result A]. *)

From Stdlib Require Import ZArith QArith String Bool Lia.
From stdpp Require Import base list.

Local Open Scope string_scope.
Local Open Scope Z_scope.

(** ** Exceptions *)

Inductive py_error : Type :=
  | ValueError
  | RuntimeError
  | AttributeError
  | IndexError
  | ZeroDivisionError
  | NotImplementedError
  | TorchError.

Inductive result (A : Type) : Type :=
  | Ok (a : A)
  | Raise (e : py_error).
Arguments Ok {A} a.
Arguments Raise {A} e.

#[global] Instance result_ret : MRet result := fun A a => Ok a.
#[global] Instance result_bind : MBind result := fun A B k m =>
  match m with
  | Ok a => k a
  | Raise e => Raise e
  end.

#[global] Instance result_fmap : FMap result := fun A B f m =>
  match m with
  | Ok a => Ok (f a)
  | Raise e => Raise e
  end.

(** [l[i]] for a non-negative index [i]. *)
Definition getitem {A : Type} (l : list A) (i : nat) : result A :=
  match l !! i with
  | Some a => Ok a
  | None => Raise IndexError
  end.

(** ** Python numeric primitives *)

(** [int(x)] on a float: truncation towards zero.  Total here: the
    [OverflowError] and [ValueError] of [int(inf)] and [int(nan)] have no
    counterpart, the numbers being rationals. *)
Definition py_int (x : Q) : Z := Z.quot (Qnum x) (Zpos (Qden x)).

(** [a / b] (true division): raises [ZeroDivisionError] on a zero divisor.
    The quotient is exact where the float quotient is rounded: no
    statement below relies on [(a / b) * b] giving back [a]. *)
Definition py_truediv (a b : Q) : result Q :=
  if Qeq_bool b 0 then Raise ZeroDivisionError else Ok (a / b)%Q.

(** [n % 2 != 0] on an [int]. *)
Definition odd_mod2 (n : Z) : bool := negb (n mod 2 =? 0).

(** ** The per-axis planner: [_ZoomNd._calculate_crop_pad] *)

(** What one call returns for its axis: the [slice(start, end)], the new
    entry of [scale_factor], the [padding] pair and [interp_target_shape]. *)
Record AxisPlan : Type := mkAxisPlan {
  crop_start : Z;
  crop_end : Z;
  corrected_scale : Q;
  padding : Z * Z;
  interp_target_size : Z
}.

Definition pad_before (p : AxisPlan) : Z := fst (padding p).
Definition pad_after (p : AxisPlan) : Z := snd (padding p).

(** Line 276: [target_shape[dim] * scale_factor[dim]], an exact product
    where the float product is rounded before [int()] reads it. *)
Definition source_size (target_size : Z) (scale_factor : Q) : Q :=
  (inject_Z target_size * scale_factor)%Q.

(** Lines 283-286: the integer extent [out]. *)
Definition calc_out (this_in_shape : Z) (scale_factor : Q) (target_size : Z)
    (alignment : string) : Z :=
  let source := source_size target_size scale_factor in
  if (alignment =? "mid")%string && odd_mod2 (this_in_shape - py_int source)
  then py_int (source / 2)%Q * 2
  else py_int source.

(** Lines 292-297: the proportions of the padding before and after. *)
Definition pad_distribution (alignment : string) : Q * Q :=
  if (alignment =? "from_end")%string then (1, 0)%Q
  else if (alignment =? "mid")%string then (1 # 2, 1 # 2)%Q
  else (0, 1)%Q.

(** Lines 290-309: the branch [out > this_in_shape]. *)
Definition pad_branch (this_in_shape : Z) (scale_factor : Q) (target_size : Z)
    (alignment : string) : result AxisPlan :=
  let '(p0, p1) := pad_distribution alignment in
  q ← py_truediv (inject_Z this_in_shape) scale_factor;
  let interp_target_shape := py_int q in
  if (alignment =? "mid")%string
     && odd_mod2 (interp_target_shape - target_size)
  then Raise NotImplementedError
  else
    rescale_factor ←
      py_truediv (inject_Z this_in_shape) (inject_Z interp_target_shape);
    let full_pad := target_size - interp_target_shape in
    Ok {| crop_start := 0;
          crop_end := this_in_shape;
          corrected_scale := rescale_factor;
          padding := (py_int (p0 * inject_Z full_pad),
                      py_int (p1 * inject_Z full_pad));
          interp_target_size := interp_target_shape |}.

(** Lines 310-321: the branch [out <= this_in_shape].  The second [if] of
    the source is not an [elif]: under ["mid"] the [else] of the
    ["from_end"] test runs as well and sets [end = start + out]. *)
Definition crop_branch (this_in_shape : Z) (out : Z) (rescale_factor : Q)
    (target_size : Z) (alignment : string) : AxisPlan :=
  let start := 0 in
  let end_ := this_in_shape in
  let start :=
    if (alignment =? "mid")%string
    then py_int (inject_Z (end_ - out) / 2)%Q
    else start in
  let '(start, end_) :=
    if (alignment =? "from_end")%string
    then (end_ - out, end_)
    else (start, start + out) in
  {| crop_start := start;
     crop_end := end_;
     corrected_scale := rescale_factor;
     padding := (0, 0);
     interp_target_size := target_size |}.

(** The body of [_calculate_crop_pad] once [this_in_shape],
    [scale_factor[dim]] and [target_shape[dim]] have been read. *)
Definition plan_axis (this_in_shape : Z) (scale_factor : Q) (target_size : Z)
    (alignment : string) : result AxisPlan :=
  let out := calc_out this_in_shape scale_factor target_size alignment in
  rescale_factor ← py_truediv (inject_Z out) (inject_Z target_size);
  if out >? this_in_shape
  then pad_branch this_in_shape scale_factor target_size alignment
  else Ok (crop_branch this_in_shape out rescale_factor target_size alignment).

(** [_calculate_crop_pad(in_shape, scale_factor, target_shape, dim, alignment)]:
    reads the three entries, plans the axis and stores the corrected scale
    into [scale_factor[dim]].  Returns the plan and the updated list. *)
Definition _calculate_crop_pad (in_shape : list Z) (scale_factor : list Q)
    (target_shape : list Z) (dim : nat) (alignment : string)
    : result (AxisPlan * list Q) :=
  this_in_shape ← getitem in_shape (dim + 2);
  target_size ← getitem target_shape dim;
  sf ← getitem scale_factor dim;
  plan ← plan_axis this_in_shape sf target_size alignment;
  Ok (plan, <[dim := corrected_scale plan]> scale_factor).

(** ** The scale-factor normaliser: [_ZoomNd._fix_scale_factors] *)

(** One element of an iterable [scale_factors]: a [Number], a list or
    tuple of numbers, or a value that is neither.  ([numpy] arrays and
    tensors as elements are outside the model.) *)
Inductive sf_entry : Type :=
  | ENumber (x : Q)
  | ESequence (l : list Q)
  | EOther.

(** The argument [scale_factors]: an iterable of entries, a single
    [Number], or a value that is neither. *)
Inductive sf_input : Type :=
  | SIterable (entries : list sf_entry)
  | SNumber (x : Q)
  | SOther.

(** [l * n] on a list: [n] copies of [l], none when [n <= 0]. *)
Definition py_list_mul {A : Type} (l : list A) (n : Z) : list A :=
  concat (replicate (Z.to_nat n) l).

(** Lines 197-221: one entry made a per-axis list, or [ValueError]. *)
Definition fix_entry (N : Z) (sf : sf_entry) : result (list Q) :=
  match sf with
  | ENumber x => Ok (py_list_mul [x] N)
  | ESequence l =>
      let sf_dim := Z.of_nat (length l) in
      let sf := if sf_dim =? 1 then py_list_mul l N else l in
      if negb (sf_dim =? N) then Raise ValueError else Ok sf
  | EOther => Raise ValueError
  end.

(** [any(l != t for l, t in zip(last_sf, sf))]. *)
Definition any_differ (last_sf sf : list Q) : bool :=
  existsb (fun lt => negb (Qeq_bool (fst lt) (snd lt))) (zip last_sf sf).

(** Lines 193-230: the loop over the entries, with its two variables [num]
    and [last_sf]; the result lists what the generator yields. *)
Fixpoint fix_loop (N : Z) (entries : list sf_entry) (num : Z)
    (last_sf : option (list Q)) : result (list (list Q * Z)) :=
  match entries with
  | [] =>
      match last_sf with
      | Some l => Ok [(l, num)]
      | None => Ok []
      end
  | e :: rest =>
      sf ← fix_entry N e;
      match last_sf with
      | Some l =>
          if any_differ l sf
          then runs ← fix_loop N rest (0 + 1) (Some sf); Ok ((l, num) :: runs)
          else fix_loop N rest (num + 1) (Some sf)
      | None => fix_loop N rest (num + 1) (Some sf)
      end
  end.

Definition _fix_scale_factors (N : Z) (scale_factors : sf_input)
    (batch_size : Z) : result (list (list Q * Z)) :=
  match scale_factors with
  | SIterable entries => fix_loop N entries 0 None
  | SNumber x => Ok [(py_list_mul [x] N, batch_size)]
  | SOther => Raise ValueError
  end.

(** The batch seen as the list of its samples: [torch.split(t, sizes, dim=0)]
    cuts consecutive chunks of the given sizes and raises unless they are
    non-negative and use the batch up; [torch.cat(chunks, dim=0)] is
    [concat]. *)
Fixpoint batch_split {A : Type} (batch : list A) (sizes : list Z)
    : result (list (list A)) :=
  match sizes with
  | [] => if decide (batch = []) then Ok [] else Raise TorchError
  | n :: rest =>
      if (n <? 0) || (Z.of_nat (length batch) <? n) then Raise TorchError
      else
        chunks ← batch_split (drop (Z.to_nat n) batch) rest;
        Ok (take (Z.to_nat n) batch :: chunks)
  end.

(** The per-sample list that [forward] builds with
    [scales_out.extend([sf] * num)]. *)
Definition expand_runs {A : Type} (runs : list (A * Z)) : list A :=
  flat_map (fun r => replicate (Z.to_nat (snd r)) (fst r)) runs.

(** ** Modules and the batch driver *)

Inductive zoom_class : Type := ZoomNd_base | Zoom2d_class | Zoom3d_class.

Record ZoomModule : Type := mkZoom {
  zclass : zoom_class;
  _mode : string;
  _crop_position : string
}.

Definition _N (self : ZoomModule) : Z :=
  match zclass self with
  | ZoomNd_base => -1
  | Zoom2d_class => 2
  | Zoom3d_class => 3
  end.

Definition str_in (s : string) (l : list string) : bool :=
  existsb (String.eqb s) l.

Definition startswith (s p : string) : bool := String.prefix p s.

Definition endswith (s p : string) : bool :=
  let n := String.length s in
  let m := String.length p in
  (m <=? n)%nat && (substring (n - m) m s =? p)%string.

(** [p in s] on strings. *)
Fixpoint contains (s p : string) : bool :=
  String.prefix p s ||
  match s with
  | EmptyString => false
  | String _ s' => contains s' p
  end.

Definition Zoom2d (interpolation_mode crop_position : string)
    : result ZoomModule :=
  if negb (str_in interpolation_mode ["nearest"; "bilinear"; "bicubic"; "area"])
  then Raise ValueError
  else if negb (str_in crop_position
                  ["top_left"; "bottom_left"; "top_right"; "bottom_right";
                   "center"])
  then Raise ValueError
  else Ok (mkZoom Zoom2d_class interpolation_mode crop_position).

Definition Zoom3d (interpolation_mode crop_position : string)
    : result ZoomModule :=
  if negb (str_in interpolation_mode ["nearest"; "trilinear"; "area"])
  then Raise ValueError
  else if negb (str_in crop_position
                  ["front_top_left"; "back_top_left"; "front_bottom_left";
                   "back_bottom_left"; "front_top_right"; "back_top_right";
                   "front_bottom_right"; "back_bottom_right"; "center"])
  then Raise ValueError
  else Ok (mkZoom Zoom3d_class interpolation_mode crop_position).

(** The operations of [torch] that the driver calls, over an abstract
    tensor type.  Each may raise. *)
Record TorchOps (Tensor : Type) : Type := mkTorchOps {
  shape : Tensor -> list Z;
  torch_split : Tensor -> list Z -> result (list Tensor);
  torch_cat : list Tensor -> result Tensor;
  (** [data[:, :, s_1, ..., s_N]] for [s_i = slice(start_i, end_i)] *)
  crop_spatial : Tensor -> list (Z * Z) -> result Tensor;
  (** [F.interpolate(data, size, mode, align_corners)] *)
  F_interpolate : Tensor -> list Z -> string -> option bool -> result Tensor;
  (** [F.pad(data, pad)] *)
  F_pad : Tensor -> list Z -> result Tensor
}.
Arguments shape {Tensor} _ _.
Arguments torch_split {Tensor} _ _ _.
Arguments torch_cat {Tensor} _ _.
Arguments crop_spatial {Tensor} _ _ _.
Arguments F_interpolate {Tensor} _ _ _ _ _.
Arguments F_pad {Tensor} _ _ _.

Definition plan_slice (p : AxisPlan) : Z * Z := (crop_start p, crop_end p).
Definition pair_list (p : Z * Z) : list Z := [fst p; snd p].
Definition is_zero_pad (p : Z * Z) : bool := (fst p =? 0) && (snd p =? 0).

(** [[1 / sf for sf in scale_f]]. *)
Fixpoint reciprocals (scale_f : list Q) : result (list Q) :=
  match scale_f with
  | [] => Ok []
  | sf :: rest =>
      r ← py_truediv 1 sf;
      rs ← reciprocals rest;
      Ok (r :: rs)
  end.

Definition list_Z_eqb (a b : list Z) : bool := bool_decide (a = b).

Section Driver.
Context {Tensor : Type} (ops : TorchOps Tensor).

(** Lines 437-447 and 569-582: interpolate when the cropped shape is not
    the interpolation target, then pad when some padding is not [(0, 0)]. *)
Definition resize_and_pad (data : Tensor) (size : list Z)
    (align_corners : option bool) (mode : string) (pads : list (Z * Z))
    (pad_arg : list Z) : result Tensor :=
  data ← (if negb (list_Z_eqb (drop 2 (shape ops data)) size)
          then F_interpolate ops data size mode align_corners
          else Ok data);
  if existsb (fun p => negb (is_zero_pad p)) pads
  then F_pad ops data pad_arg
  else Ok data.

Definition Zoom2d_interpolate (self : ZoomModule) (data : Tensor)
    (scale_factor : list Q) (target_shape : list Z)
    : result (Tensor * list Q) :=
  if negb (length scale_factor =? 2)%nat then Raise ValueError
  else
    let '(vertical_alignment, horizontal_alignment) :=
      if (_crop_position self =? "center")%string
      then ("mid", "mid") else ("from_start", "from_start") in
    let vertical_alignment :=
      if startswith (_crop_position self) "bottom"
      then "from_end" else vertical_alignment in
    let horizontal_alignment :=
      if endswith (_crop_position self) "right"
      then "from_end" else horizontal_alignment in
    '(tb, scale_factor) ← _calculate_crop_pad
        (shape ops data) scale_factor target_shape 0 vertical_alignment;
    '(lr, scale_factor) ← _calculate_crop_pad
        (shape ops data) scale_factor target_shape 1 horizontal_alignment;
    data ← crop_spatial ops data [plan_slice tb; plan_slice lr];
    data ← resize_and_pad data
        [interp_target_size tb; interp_target_size lr]
        (Some false) (_mode self)
        [padding tb; padding lr]
        (pair_list (padding lr) ++ pair_list (padding tb))%list;
    Ok (data, scale_factor).

Definition Zoom3d_interpolate (self : ZoomModule) (data : Tensor)
    (scale_factor : list Q) (target_shape : list Z)
    : result (Tensor * list Q) :=
  if negb (length scale_factor =? 3)%nat then Raise ValueError
  else
    let '(depth_alignment, vertical_alignment, horizontal_alignment) :=
      if (_crop_position self =? "center")%string
      then ("mid", "mid", "mid")
      else ("from_start", "from_start", "from_start") in
    let depth_alignment :=
      if startswith (_crop_position self) "back"
      then "from_end" else depth_alignment in
    let vertical_alignment :=
      if contains (_crop_position self) "_bottom_"
      then "from_end" else vertical_alignment in
    let horizontal_alignment :=
      if endswith (_crop_position self) "right"
      then "from_end" else horizontal_alignment in
    '(fb, scale_factor) ← _calculate_crop_pad
        (shape ops data) scale_factor target_shape 0 depth_alignment;
    '(tb, scale_factor) ← _calculate_crop_pad
        (shape ops data) scale_factor target_shape 1 vertical_alignment;
    '(lr, scale_factor) ← _calculate_crop_pad
        (shape ops data) scale_factor target_shape 2 horizontal_alignment;
    data ← crop_spatial ops data
        [plan_slice fb; plan_slice tb; plan_slice lr];
    data ← resize_and_pad data
        [interp_target_size fb; interp_target_size tb; interp_target_size lr]
        (if negb (_mode self =? "nearest")%string then Some false else None)
        (_mode self)
        [padding fb; padding tb; padding lr]
        (pair_list (padding fb) ++ pair_list (padding lr)
         ++ pair_list (padding tb))%list;
    Ok (data, scale_factor).

(** [self._interpolate]: abstract in [_ZoomNd]. *)
Definition _interpolate (self : ZoomModule) (data : Tensor)
    (scale_factor : list Q) (target_shape : list Z)
    : result (Tensor * list Q) :=
  match zclass self with
  | ZoomNd_base => Raise NotImplementedError
  | Zoom2d_class => Zoom2d_interpolate self data scale_factor target_shape
  | Zoom3d_class => Zoom3d_interpolate self data scale_factor target_shape
  end.

(** Lines 141-151: the loop over [zip(split, scales, chunks)]; returns
    [interp] and [scales_out]. *)
Fixpoint forward_loop (self : ZoomModule) (target_shape : list Z)
    (rescale : bool) (items : list (Tensor * (list Q * Z)))
    : result (list Tensor * list (list Q)) :=
  match items with
  | [] => Ok ([], [])
  | (tensor, (scale_f, num)) :: rest =>
      scale_f ← (if rescale then reciprocals scale_f else Ok scale_f);
      '(image, sf) ← _interpolate self tensor scale_f target_shape;
      '(interp, scales_out) ← forward_loop self target_shape rescale rest;
      Ok (image :: interp, (py_list_mul [sf] num ++ scales_out)%list)
  end.

Definition forward (self : ZoomModule) (input_tensor : Tensor)
    (scale_factors : sf_input) (target_shape : list Z) (rescale : bool)
    : result (Tensor * list (list Q)) :=
  if _N self =? -1 then Raise RuntimeError
  else if negb (Z.of_nat (length (shape ops input_tensor)) =? 2 + _N self)
  then Raise ValueError
  else if (length target_shape =? 0)%nat then Raise AttributeError
  else
    batch_size ← getitem (shape ops input_tensor) 0;
    runs ← _fix_scale_factors (_N self) scale_factors batch_size;
    if (length runs =? 0)%nat then Raise ValueError
    else
      let scales := map fst runs in
      let chunks := map snd runs in
      tensors ← torch_split ops input_tensor chunks;
      '(interp, scales_out) ←
        forward_loop self target_shape rescale
          (zip tensors (zip scales chunks));
      out ← torch_cat ops interp;
      Ok (out, scales_out).
End Driver.

(** ** Tensors known by their shape

    An instance of [TorchOps] in which a tensor is its shape
    [[B; C; D_1; ...; D_N]]: enough to run the driver on concrete inputs.
    It returns a shape wherever [torch] returns a tensor, and also in
    cases where [torch] raises ([F.interpolate] on an empty tensor, or
    with [align_corners] set under the modes [nearest] and [area]), so
    the statements over it are about the shapes of results that are
    returned. *)

Definition sum_Z (l : list Z) : Z := foldr Z.add 0 l.

(** Length of [range(d)[start:end]]. *)
Definition slice_length (d : Z) (s : Z * Z) : Z :=
  let clamp k := if k <? 0 then Z.max 0 (k + d) else Z.min k d in
  Z.max 0 (clamp (snd s) - clamp (fst s)).

(** [F.pad] reads its pairs from the last axis backwards. *)
Fixpoint pad_from_last (rev_shape pad : list Z) : list Z :=
  match pad, rev_shape with
  | before :: after :: pad', d :: ds =>
      (before + d + after) :: pad_from_last ds pad'
  | _, _ => rev_shape
  end.

Definition shape_ops : TorchOps (list Z) := {|
  shape t := t;
  torch_split t sizes :=
    match t with
    | [] => Raise TorchError
    | b :: rest =>
        if forallb (fun n => 0 <=? n) sizes && (sum_Z sizes =? b)
        then Ok (map (fun n => n :: rest) sizes)
        else Raise TorchError
    end;
  torch_cat ts :=
    match ts with
    | [] => Raise TorchError
    | t :: _ =>
        if forallb (fun u => list_Z_eqb (tail u) (tail t)) ts
        then Ok (sum_Z (map (hd 0) ts) :: tail t)
        else Raise TorchError
    end;
  crop_spatial t slices :=
    if (length (drop 2 t) =? length slices)%nat
    then Ok (take 2 t ++ zip_with slice_length (drop 2 t) slices)%list
    else Raise IndexError;
  F_interpolate t size _ _ :=
    if (length (drop 2 t) =? length size)%nat
    then Ok (take 2 t ++ size)%list
    else Raise ValueError;
  F_pad t pad := Ok (rev (pad_from_last (rev t) pad))
|}.

(** ** Vocabulary of the statements *)

(** The shortfall [full_pad] laid out by alignment, as integers. *)
Definition expected_padding (alignment : string) (fp : Z) : Z * Z :=
  if (alignment =? "from_end")%string then (fp, 0)
  else if (alignment =? "mid")%string then (Z.quot fp 2, Z.quot fp 2)
  else (0, fp).

(** Where the crop window of length [out] starts, by alignment. *)
Definition expected_start (alignment : string) (i out : Z) : Z :=
  if (alignment =? "from_end")%string then i - out
  else if (alignment =? "mid")%string then Z.quot (i - out) 2
  else 0.

(** A per-axis list [v] is, up to numeric equality, the number [x]
    repeated over the [N] axes. *)
Definition broadcast_of (N : Z) (v : list Q) (x : Q) : Prop :=
  Forall2 Qeq v (py_list_mul [x] N).

(** [1 / x], and the caller's [[1 / x for x in v]] on each shape of
    [scale_factors]. *)
Definition recip (x : Q) : Q := (1 / x)%Q.




Definition nonzero (x : Q) : Prop := ~ (x == 0)%Q.



(** ** Further vocabulary *)

(** An entry that lines 197-221 accept: a number, or a sequence of
    exactly [N] numbers. *)
Definition valid_entry (N : Z) (e : sf_entry) : Prop :=
  match e with
  | ENumber _ => True
  | ESequence l => Z.of_nat (length l) = N
  | EOther => False
  end.

(** Each run differs (by the test of line 223) from the run after it. *)
Fixpoint adjacent_differ (runs : list (list Q * Z)) : Prop :=
  match runs with
  | r1 :: rest =>
      match rest with
      | r2 :: _ => any_differ (fst r1) (fst r2) = true
      | [] => True
      end /\ adjacent_differ rest
  | [] => True
  end.

(** Lines 417-426: the vertical and horizontal alignment of a 2-d crop
    position. *)
Definition alignments_2d (crop_position : string) : string * string :=
  let '(vertical_alignment, horizontal_alignment) :=
    if (crop_position =? "center")%string
    then ("mid", "mid") else ("from_start", "from_start") in
  let vertical_alignment :=
    if startswith crop_position "bottom"
    then "from_end" else vertical_alignment in
  let horizontal_alignment :=
    if endswith crop_position "right"
    then "from_end" else horizontal_alignment in
  (vertical_alignment, horizontal_alignment).

(** Lines 533-547: the depth, vertical and horizontal alignment of a 3-d
    crop position. *)
Definition alignments_3d (crop_position : string)
    : string * string * string :=
  let '(depth_alignment, vertical_alignment, horizontal_alignment) :=
    if (crop_position =? "center")%string
    then ("mid", "mid", "mid")
    else ("from_start", "from_start", "from_start") in
  let depth_alignment :=
    if startswith crop_position "back"
    then "from_end" else depth_alignment in
  let vertical_alignment :=
    if contains crop_position "_bottom_"
    then "from_end" else vertical_alignment in
  let horizontal_alignment :=
    if endswith crop_position "right"
    then "from_end" else horizontal_alignment in
  (depth_alignment, vertical_alignment, horizontal_alignment).

(** [torch.split] hands back one chunk per requested size. *)
Definition split_keeps_count {Tensor : Type} (ops : TorchOps Tensor) : Prop :=
  forall t sizes chunks,
    torch_split ops t sizes = Ok chunks -> length chunks = length sizes.

(** The largest finite binary64 number, [(2 - 2^-52) * 2^1023].  A float
    product beyond it is [inf], on which [int()] raises [OverflowError];
    the rational numbers of this development have no such value, so a
    statement about which exceptions can occur assumes the bound. *)
Definition float_max : Q := inject_Z (2 ^ 1024 - 2 ^ 971).

(** Total padding of a plan. *)
Definition pad_total (p : AxisPlan) : Z := pad_before p + pad_after p.

(** ** [OnlyZoom3d] *)

(** [OnlyZoom3d(interpolation_mode)]: the module keeps the mode. *)
Definition OnlyZoom3d (interpolation_mode : string) : result string :=
  if negb (str_in interpolation_mode ["nearest"; "trilinear"; "area"])
  then Raise ValueError
  else Ok interpolation_mode.

(** [OnlyZoom3d.forward(input_tensor, out_shape)]. *)
Definition OnlyZoom3d_forward {Tensor : Type} (ops : TorchOps Tensor)
    (interpolation_mode : string) (input_tensor : Tensor)
    (out_shape : list Z) : result Tensor :=
  F_interpolate ops input_tensor out_shape interpolation_mode (Some false).

(** * Properties *)

Example scenario_from_start :
  plan_axis 10 2 5 "from_start" = Ok (mkAxisPlan 0 10 (10 # 5) (0, 0) 5).
Proof. reflexivity. Qed.

(** ** Arithmetic of [int()] on rationals *)

Lemma py_int_inject (z : Z) : py_int (inject_Z z) = z.
Proof. unfold py_int; simpl. apply Z.quot_1_r. Qed.

Lemma py_int_one_mul (z : Z) : py_int (1 * inject_Z z) = z.
Proof. unfold py_int; simpl. rewrite Z.quot_1_r. destruct z; reflexivity. Qed.

Lemma py_int_zero_mul (z : Z) : py_int (0 * inject_Z z) = 0.
Proof. reflexivity. Qed.

Lemma py_int_half_mul (z : Z) : py_int ((1 # 2) * inject_Z z) = Z.quot z 2.
Proof. unfold py_int; simpl. destruct z; reflexivity. Qed.

Lemma py_int_div2 (z : Z) : py_int (inject_Z z / 2) = Z.quot z 2.
Proof. unfold py_int; simpl. rewrite Z.mul_1_r. reflexivity. Qed.

Lemma py_int_nonneg (q : Q) : (0 <= q)%Q -> 0 <= py_int q.
Proof.
  unfold py_int, Qle; simpl. intros H. rewrite Z.mul_1_r in H.
  apply Z.quot_pos; lia.
Qed.

Lemma quot2_even (z : Z) : z mod 2 = 0 -> Z.quot z 2 + Z.quot z 2 = z.
Proof. intros H. Z.to_euclidean_division_equations. lia. Qed.

Lemma quot2_bounds (z : Z) : 0 <= z -> 0 <= Z.quot z 2 <= z.
Proof. intros H. Z.to_euclidean_division_equations. lia. Qed.

(** ** The two branches of the planner *)

Lemma py_truediv_Ok (a b q : Q) :
  py_truediv a b = Ok q -> Qeq_bool b 0 = false /\ q = (a / b)%Q.
Proof.
  unfold py_truediv. destruct (Qeq_bool b 0); [discriminate|].
  intros [= <-]. split; reflexivity.
Qed.

Lemma odd_mod2_false (n : Z) : odd_mod2 n = false -> n mod 2 = 0.
Proof. unfold odd_mod2. intros H. apply negb_false_iff in H. lia. Qed.

(** One step through a [py_truediv] in the goal: the raising case is
    closed, the other leaves the quotient in place. *)
Ltac step_truediv :=
  match goal with
  | |- context [py_truediv ?a ?b] =>
      let H := fresh "Hdiv" in
      destruct (py_truediv a b) eqn:H; simpl; [|discriminate];
      apply py_truediv_Ok in H as [? ->]
  end.

Lemma pad_branch_Ok (i : Z) (s : Q) (t : Z) (a : string) (p : AxisPlan) :
  pad_branch i s t a = Ok p ->
  crop_start p = 0 /\ crop_end p = i
  /\ interp_target_size p = py_int (inject_Z i / s)
  /\ padding p = expected_padding a (t - interp_target_size p)
  /\ pad_before p + pad_after p = t - interp_target_size p
  /\ Qeq_bool (inject_Z (interp_target_size p)) 0 = false
  /\ corrected_scale p = (inject_Z i / inject_Z (interp_target_size p))%Q.
Proof.
  unfold pad_branch, pad_distribution, expected_padding, pad_before, pad_after.
  destruct (a =? "from_end")%string eqn:Hfe.
  - apply String.eqb_eq in Hfe; subst a. simpl. do 2 step_truediv.
    intros [= <-]; simpl. rewrite py_int_one_mul, py_int_zero_mul.
    repeat split; auto; lia.
  - destruct (a =? "mid")%string eqn:Hmid; simpl.
    + step_truediv.
      destruct (odd_mod2 _) eqn:Hodd; [discriminate|].
      apply odd_mod2_false in Hodd. step_truediv.
      intros [= <-]; simpl. rewrite py_int_half_mul. repeat split; auto.
      apply quot2_even. revert Hodd.
      generalize (py_int (inject_Z i / s)). intros k Hodd.
      Z.to_euclidean_division_equations. lia.
    + do 2 step_truediv.
      intros [= <-]; simpl. rewrite py_int_one_mul, py_int_zero_mul.
      repeat split; auto.
Qed.

Lemma crop_branch_spec (i out : Z) (r : Q) (t : Z) (a : string) :
  let p := crop_branch i out r t a in
  crop_start p = expected_start a i out
  /\ crop_end p = crop_start p + out
  /\ corrected_scale p = r /\ padding p = (0, 0) /\ interp_target_size p = t.
Proof.
  unfold crop_branch, expected_start.
  destruct (a =? "from_end")%string eqn:Hfe.
  - apply String.eqb_eq in Hfe; subst a. simpl. repeat split; lia.
  - destruct (a =? "mid")%string; simpl; rewrite ?py_int_div2; repeat split.
Qed.

Lemma Qeq_bool_inject_0 (z : Z) : Qeq_bool (inject_Z z) 0 = (z =? 0).
Proof.
  destruct (Z.eqb_spec z 0) as [->|Hz]; [reflexivity|].
  apply not_true_is_false. intros H. apply Qeq_bool_iff in H.
  unfold Qeq in H; simpl in H. lia.
Qed.

Lemma plan_axis_Ok (i : Z) (s : Q) (t : Z) (a : string) (p : AxisPlan) :
  plan_axis i s t a = Ok p ->
  t <> 0 /\
  ((calc_out i s t a > i /\ pad_branch i s t a = Ok p) \/
   (calc_out i s t a <= i /\
    p = crop_branch i (calc_out i s t a)
          (inject_Z (calc_out i s t a) / inject_Z t) t a)).
Proof.
  unfold plan_axis.
  destruct (py_truediv _ _) as [r|] eqn:Hr; simpl; [|discriminate].
  apply py_truediv_Ok in Hr as [Hnz ->]. rewrite Qeq_bool_inject_0 in Hnz.
  destruct (Z.gtb_spec (calc_out i s t a) i); intros Hp.
  - split; [lia|]. left. split; [lia|assumption].
  - split; [lia|]. right. split; [lia|congruence].
Qed.

Lemma plan_axis_crop (i : Z) (s : Q) (t : Z) (a : string) :
  t <> 0 -> calc_out i s t a <= i ->
  plan_axis i s t a
  = Ok (crop_branch i (calc_out i s t a)
          (inject_Z (calc_out i s t a) / inject_Z t) t a).
Proof.
  intros Ht Hle. unfold plan_axis, py_truediv.
  rewrite Qeq_bool_inject_0. destruct (Z.eqb_spec t 0); [contradiction|]. simpl.
  destruct (Z.gtb_spec (calc_out i s t a) i); [lia|reflexivity].
Qed.

Lemma plan_axis_pad (i : Z) (s : Q) (t : Z) (a : string) :
  t <> 0 -> calc_out i s t a > i ->
  plan_axis i s t a = pad_branch i s t a.
Proof.
  intros Ht Hgt. unfold plan_axis, py_truediv.
  rewrite Qeq_bool_inject_0. destruct (Z.eqb_spec t 0); [contradiction|]. simpl.
  destruct (Z.gtb_spec (calc_out i s t a) i); [reflexivity|lia].
Qed.

Lemma calc_out_nonneg (i : Z) (s : Q) (t : Z) (a : string) :
  0 <= t -> (0 <= s)%Q -> 0 <= calc_out i s t a.
Proof.
  intros Ht Hs. unfold calc_out.
  assert (Hsrc : (0 <= source_size t s)%Q).
  { unfold source_size. apply Qmult_le_0_compat; [|assumption].
    unfold Qle; simpl. lia. }
  destruct (_ && _).
  - assert (0 <= py_int (source_size t s / 2)); [|lia].
    apply py_int_nonneg. apply Qle_shift_div_l; [reflexivity|].
    rewrite Qmult_0_l. assumption.
  - apply py_int_nonneg; assumption.
Qed.

Lemma py_int_num_zero (q : Q) : Qnum q = 0 -> py_int q = 0.
Proof. unfold py_int. intros ->. reflexivity. Qed.

Lemma calc_out_zero (i : Z) (s : Q) (t : Z) (a : string) :
  t = 0 \/ (s == 0)%Q -> calc_out i s t a = 0.
Proof.
  intros H.
  assert (Hnum : Qnum (source_size t s) = 0).
  { unfold source_size; simpl. destruct H as [->|H]; [reflexivity|].
    unfold Qeq in H; simpl in H. nia. }
  unfold calc_out.
  rewrite (py_int_num_zero (source_size t s)) by assumption.
  rewrite (py_int_num_zero (source_size t s / 2)).
  - destruct (_ && _); reflexivity.
  - unfold Qdiv, Qmult. cbn [Qnum]. rewrite Hnum. reflexivity.
Qed.

(** [_calculate_crop_pad] is [plan_axis] on the entries it reads, with the
    corrected scale stored back. *)
Lemma calculate_crop_pad_plan_axis (in_shape : list Z) (scale_factor : list Q)
    (target_shape : list Z) (dim : nat) (alignment : string)
    (i t : Z) (s : Q) :
  in_shape !! (dim + 2)%nat = Some i ->
  target_shape !! dim = Some t ->
  scale_factor !! dim = Some s ->
  _calculate_crop_pad in_shape scale_factor target_shape dim alignment
  = (fun p => (p, <[dim := corrected_scale p]> scale_factor))
      <$> plan_axis i s t alignment.
Proof.
  intros Hi Ht Hs. unfold _calculate_crop_pad, getitem.
  rewrite Hi, Ht, Hs. simpl.
  destruct (plan_axis i s t alignment); reflexivity.
Qed.

(** ** Claims about the per-axis planner *)

(** C1, as stated, fails on its own scenario: for input size 4, target
    size 10, scale factor 1.0 and alignment [from_end] the planner returns
    the padding pair (6, 0), all of it before, and not (0, 6). *)
Lemma from_end_scenario_pads_before :
  exists p, plan_axis 4 1 10 "from_end" = Ok p
            /\ padding p = (6, 0) /\ padding p <> (0, 6).
Proof. eexists. split; [reflexivity|]. split; [reflexivity|discriminate]. Qed.

(** C1 (amended).  In the padding branch, [from_end] puts the whole
    shortfall [target_size - interp_target_size] before and nothing after,
    [mid] puts the same amount on each side and the two add up to the
    shortfall, and every other alignment puts nothing before and the whole
    shortfall after.  For input size 4, target size 10, scale factor 1.0
    and [from_end] the padding pair is (6, 0) and the corrected scale is
    1. *)
Theorem pad_branch_sides :
  (forall (i : Z) (s : Q) (t : Z) (a : string) (p : AxisPlan),
      calc_out i s t a > i ->
      plan_axis i s t a = Ok p ->
      let shortfall := t - interp_target_size p in
      (a = "from_end" -> padding p = (shortfall, 0))
      /\ (a = "mid" ->
          pad_before p = pad_after p /\ pad_before p + pad_after p = shortfall)
      /\ (a <> "from_end" -> a <> "mid" -> padding p = (0, shortfall)))
  /\ (exists p, plan_axis 4 1 10 "from_end" = Ok p
                /\ padding p = (6, 0) /\ (corrected_scale p == 1)%Q).
Proof.
  split.
  - intros i s t a p Hgt Hp shortfall.
    apply plan_axis_Ok in Hp as [_ [[_ Hp]|[Hle _]]]; [|lia].
    apply pad_branch_Ok in Hp as (_ & _ & _ & Hpad & Hsum & _).
    fold shortfall in Hpad, Hsum. unfold expected_padding in Hpad.
    split; [|split].
    + intros ->. exact Hpad.
    + intros ->. simpl in Hpad. split; [|exact Hsum].
      unfold pad_before, pad_after. rewrite Hpad. reflexivity.
    + intros Hfe Hmid.
      apply String.eqb_neq in Hfe, Hmid. rewrite Hfe, Hmid in Hpad. exact Hpad.
  - eexists. split; [reflexivity|]. split; reflexivity.
Qed.

(** The general half of C1 at input size 4, target size 10, scale factor
    1.0 and [mid]. *)
Lemma pad_branch_sides_witness :
  let p := mkAxisPlan 0 4 (4 # 4) (3, 3) 4 in
  plan_axis 4 1 10 "mid" = Ok p
  /\ pad_before p = pad_after p
  /\ pad_before p + pad_after p = 10 - interp_target_size p.
Proof.
  intros p. split; [reflexivity|].
  destruct (proj1 pad_branch_sides 4 1%Q 10 "mid" p) as (_ & Hmid & _).
  - vm_compute; reflexivity.
  - reflexivity.
  - exact (Hmid eq_refl).
Defined.

(** C2, as stated, fails: for input size 9, target size 5, scale factor
    2.0 and [mid] the extent [out] is not 8, and no plan is returned. *)
Lemma mid_scenario_not_a_crop :
  calc_out 9 2 5 "mid" <> 8 /\ (forall p, plan_axis 9 2 5 "mid" <> Ok p).
Proof. split; [discriminate|]. intros p. discriminate. Qed.

(** C2 (amended).  For input size 9, target size 5, scale factor 2.0 and
    [mid]: the source size is 10, the parity rule gives
    [out = int(10 / 2) * 2 = 10], which exceeds the input size, so the
    padding branch runs; there [interp_target_size = int(9 / 2.0) = 4], the
    difference to the target size 5 is odd, and the planner raises
    [NotImplementedError]. *)
Theorem mid_scenario_raises :
  (source_size 5 2 == 10)%Q
  /\ calc_out 9 2 5 "mid" = 10
  /\ py_int (inject_Z 9 / 2) = 4
  /\ plan_axis 9 2 5 "mid" = Raise NotImplementedError.
Proof. repeat split. Qed.

(** C4.  For every planner call that returns: if padding is active
    ([pad_before + pad_after > 0]) then the two pads add up to
    [target_size - interp_target_size]; if cropping is active (the slice is
    shorter than the input, or the crop branch [out <= input_size] was
    taken) then the slice has length [out] and [out <= input_size].  The
    alignment is arbitrary. *)
Theorem pad_sum_and_crop_length (i : Z) (s : Q) (t : Z) (a : string)
    (p : AxisPlan) :
  plan_axis i s t a = Ok p ->
  (pad_before p + pad_after p > 0 ->
   pad_before p + pad_after p = t - interp_target_size p)
  /\ (crop_end p - crop_start p < i \/ calc_out i s t a <= i ->
      crop_end p - crop_start p = calc_out i s t a /\ calc_out i s t a <= i).
Proof.
  intros Hp. apply plan_axis_Ok in Hp as [_ [[Hgt Hp]|[Hle ->]]].
  - apply pad_branch_Ok in Hp as (Hs & He & _ & _ & Hsum & _).
    split; [intros _; exact Hsum|]. rewrite Hs, He. lia.
  - destruct (crop_branch_spec i (calc_out i s t a)
                (inject_Z (calc_out i s t a) / inject_Z t) t a)
      as (_ & He & _ & Hpad & _).
    unfold pad_before, pad_after. rewrite Hpad. simpl. split; lia.
Qed.

(** C4 on a padding plan (4, 1.0, 10, [mid]) and on a cropping plan
    (9, 2.0, 4, [mid]). *)
Lemma pad_sum_and_crop_length_witness :
  let p := mkAxisPlan 0 4 (4 # 4) (3, 3) 4 in
  let c := mkAxisPlan 0 8 (8 # 4) (0, 0) 4 in
  (plan_axis 4 1 10 "mid" = Ok p
   /\ pad_before p + pad_after p = 10 - interp_target_size p)
  /\ (plan_axis 9 2 4 "mid" = Ok c
      /\ crop_end c - crop_start c = calc_out 9 2 4 "mid"
      /\ calc_out 9 2 4 "mid" <= 9).
Proof.
  intros p c. split; (split; [reflexivity|]).
  - apply (proj1 (pad_sum_and_crop_length 4 1 10 "mid" p eq_refl)).
    reflexivity.
  - apply (proj2 (pad_sum_and_crop_length 9 2 4 "mid" c eq_refl)).
    left. reflexivity.
Defined.

(** C5.  No planner call returns a plan that both pads
    ([pad_before + pad_after > 0]) and crops
    ([crop_end - crop_start < input_size]): the plan either has zero
    padding, or its slice is the whole input [slice(0, input_size)]. *)
Theorem never_pad_and_crop (i : Z) (s : Q) (t : Z) (a : string)
    (p : AxisPlan) :
  plan_axis i s t a = Ok p ->
  ~ (pad_before p + pad_after p > 0 /\ crop_end p - crop_start p < i)
  /\ (padding p = (0, 0) \/ (crop_start p = 0 /\ crop_end p = i)).
Proof.
  intros Hp. apply plan_axis_Ok in Hp as [_ [[Hgt Hp]|[Hle ->]]].
  - apply pad_branch_Ok in Hp as (Hs & He & _). rewrite Hs, He.
    split; [lia|]. right. split; reflexivity.
  - destruct (crop_branch_spec i (calc_out i s t a)
                (inject_Z (calc_out i s t a) / inject_Z t) t a)
      as (_ & _ & _ & Hpad & _).
    unfold pad_before, pad_after. rewrite Hpad. simpl.
    split; [lia|]. left. reflexivity.
Qed.

(** C5 on the padding plan of (4, 1.0, 10, [mid]). *)
Lemma never_pad_and_crop_witness :
  let p := mkAxisPlan 0 4 (4 # 4) (3, 3) 4 in
  plan_axis 4 1 10 "mid" = Ok p
  /\ ~ (pad_before p + pad_after p > 0 /\ crop_end p - crop_start p < 4).
Proof.
  intros p. split; [reflexivity|].
  exact (proj1 (never_pad_and_crop 4 1 10 "mid" p eq_refl)).
Defined.




(** C9.  In the padding branch ([out > input_size]) under [mid], when
    [interp_target_size - target_size] is odd the planner raises
    [NotImplementedError] and returns no plan. *)
Theorem mid_odd_shortfall_raises (i : Z) (s : Q) (t : Z) :
  0 <= i ->
  calc_out i s t "mid" > i ->
  (py_int (inject_Z i / s) - t) mod 2 <> 0 ->
  plan_axis i s t "mid" = Raise NotImplementedError.
Proof.
  intros Hi Hgt Hodd.
  assert (Ht : t <> 0).
  { intros ->. rewrite calc_out_zero in Hgt by (left; reflexivity). lia. }
  assert (Hs : Qeq_bool s 0 = false).
  { apply not_true_is_false. intros H. apply Qeq_bool_iff in H.
    rewrite calc_out_zero in Hgt by (right; exact H). lia. }
  rewrite plan_axis_pad by assumption.
  unfold pad_branch, py_truediv. simpl. rewrite Hs. simpl.
  unfold odd_mod2. destruct (Z.eqb_spec ((py_int (inject_Z i / s) - t) mod 2) 0);
    [contradiction|reflexivity].
Qed.

(** C9 at input size 9, target size 5, scale factor 2.0. *)
Lemma mid_odd_shortfall_raises_witness :
  plan_axis 9 2 5 "mid" = Raise NotImplementedError.
Proof.
  apply mid_odd_shortfall_raises.
  - lia.
  - vm_compute; reflexivity.
  - vm_compute; discriminate.
Defined.

(** C10.  For positive input size, target size and scale factor, a call
    that takes the crop / exact-fit branch ([out <= input_size]) returns a
    slice with [0 <= start <= end <= input_size], whatever the alignment. *)
Theorem crop_slice_in_bounds (i : Z) (s : Q) (t : Z) (a : string) :
  0 < i -> 0 < t -> (0 < s)%Q ->
  calc_out i s t a <= i ->
  exists p, plan_axis i s t a = Ok p
            /\ 0 <= crop_start p <= crop_end p /\ crop_end p <= i.
Proof.
  intros Hi Ht Hs Hle.
  pose proof (calc_out_nonneg i s t a ltac:(lia) (Qlt_le_weak _ _ Hs)) as Hout.
  rewrite plan_axis_crop by lia. eexists. split; [reflexivity|].
  destruct (crop_branch_spec i (calc_out i s t a)
              (inject_Z (calc_out i s t a) / inject_Z t) t a)
    as (Hst & He & _).
  rewrite He, Hst. unfold expected_start.
  destruct (a =? "from_end")%string; [lia|].
  destruct (a =? "mid")%string; [|lia].
  pose proof (quot2_bounds (i - calc_out i s t a) ltac:(lia)).
  Z.to_euclidean_division_equations. lia.
Qed.

(** C10 at input size 9, target size 4, scale factor 2.0 and [mid]. *)
Lemma crop_slice_in_bounds_witness :
  exists p, plan_axis 9 2 4 "mid" = Ok p
            /\ 0 <= crop_start p <= crop_end p /\ crop_end p <= 9.
Proof.
  apply crop_slice_in_bounds.
  - lia.
  - lia.
  - reflexivity.
  - vm_compute. discriminate.
Defined.
(** ** The normaliser's loop *)

Lemma fix_loop_lengths (N : Z) (entries : list sf_entry) :
  forall (num : Z) (last_sf : option (list Q)) (runs : list (list Q * Z)),
    fix_loop N entries num last_sf = Ok runs ->
    0 <= num ->
    Forall (fun r => 0 <= snd r) runs
    /\ (is_Some last_sf \/ entries <> [] \/ num = 0 ->
        sum_Z (map snd runs) = num + Z.of_nat (length entries)).
Proof.
  induction entries as [|e rest IH]; intros num last_sf runs Hruns Hnum.
  - simpl in Hruns. destruct last_sf as [l|]; injection Hruns as <-.
    + split; [repeat constructor; assumption|]. intros _. simpl. lia.
    + split; [constructor|]. intros [[? H]|[H| ->]];
        [discriminate|contradiction|reflexivity].
  - simpl in Hruns.
    destruct (fix_entry N e) as [sf|] eqn:Hsf; simpl in Hruns; [|discriminate].
    assert (Hrest : forall num' runs',
               fix_loop N rest num' (Some sf) = Ok runs' -> 0 <= num' ->
               Forall (fun r => 0 <= snd r) runs'
               /\ sum_Z (map snd runs') = num' + Z.of_nat (length rest)).
    { intros num' runs' H1 H2. destruct (IH _ _ _ H1 H2) as [Ha Hb].
      split; [exact Ha|]. apply Hb. left. eexists; reflexivity. }
    destruct last_sf as [l|].
    + destruct (any_differ l sf).
      * destruct (fix_loop N rest (0 + 1) (Some sf)) as [runs'|] eqn:Hr;
          simpl in Hruns; [|discriminate].
        injection Hruns as <-.
        destruct (Hrest _ _ Hr ltac:(lia)) as [Ha Hb].
        split; [constructor; assumption|]. intros _.
        cbn [map sum_Z foldr snd]. fold (sum_Z (map snd runs')).
        rewrite Hb. cbn [length]. lia.
      * destruct (Hrest _ _ Hruns ltac:(lia)) as [Ha Hb].
        split; [exact Ha|]. intros _. rewrite Hb. cbn [length]. lia.
    + destruct (Hrest _ _ Hruns ltac:(lia)) as [Ha Hb].
      split; [exact Ha|]. intros _. rewrite Hb. cbn [length]. lia.
Qed.

Lemma batch_split_concat {A : Type} (sizes : list Z) :
  forall batch : list A,
    Forall (fun n => 0 <= n) sizes ->
    sum_Z sizes = Z.of_nat (length batch) ->
    exists chunks,
      batch_split batch sizes = Ok chunks
      /\ concat chunks = batch
      /\ Forall2 (fun c n => Z.of_nat (length c) = n) chunks sizes.
Proof.
  induction sizes as [|n rest IH]; intros batch Hpos Hsum.
  - simpl in Hsum. destruct batch; [|simpl in Hsum; lia].
    exists []. repeat split. constructor.
  - inversion Hpos as [|? ? Hn Hrest]; subst. simpl in Hsum.
    fold (sum_Z rest) in Hsum.
    assert (Hrest_pos : 0 <= sum_Z rest).
    { clear -Hrest. induction Hrest; simpl; [lia|]. fold (sum_Z l). lia. }
    destruct (IH (drop (Z.to_nat n) batch) Hrest) as (chunks & Hc & Hcat & Hlen).
    { rewrite length_drop. lia. }
    exists (take (Z.to_nat n) batch :: chunks). simpl.
    destruct (Z.ltb_spec n 0); [lia|].
    destruct (Z.ltb_spec (Z.of_nat (length batch)) n); [lia|]. simpl.
    rewrite Hc. simpl. split; [reflexivity|]. split.
    + rewrite Hcat. apply take_drop.
    + constructor; [|exact Hlen]. rewrite length_take. lia.
Qed.

Lemma py_list_mul_singleton {A : Type} (x : A) (n : Z) :
  py_list_mul [x] n = replicate (Z.to_nat n) x.
Proof.
  unfold py_list_mul. induction (Z.to_nat n) as [|k IH]; [reflexivity|].
  simpl. rewrite IH. reflexivity.
Qed.

Lemma any_differ_false (l sf : list Q) :
  any_differ l sf = false -> length l = length sf -> Forall2 Qeq l sf.
Proof.
  revert sf. induction l as [|a l IH]; intros [|b sf] Hd Hlen;
    try discriminate; [constructor|].
  unfold any_differ in Hd. simpl in Hd. apply orb_false_iff in Hd as [Hab Hd].
  constructor.
  - apply Qeq_bool_iff. apply negb_false_iff. exact Hab.
  - apply IH; [exact Hd|]. simpl in Hlen. lia.
Qed.

Lemma broadcast_of_length (N : Z) (v : list Q) (x : Q) :
  broadcast_of N v x -> length v = Z.to_nat N.
Proof.
  intros H. apply Forall2_length in H. rewrite H, py_list_mul_singleton.
  apply length_replicate.
Qed.

Lemma Forall2_Qeq_refl (l : list Q) : Forall2 Qeq l l.
Proof. induction l; constructor; [reflexivity|assumption]. Qed.

Lemma Forall2_Qeq_sym (l k : list Q) : Forall2 Qeq l k -> Forall2 Qeq k l.
Proof. induction 1; constructor; [symmetry|]; assumption. Qed.

Lemma Forall2_Qeq_trans (l k m : list Q) :
  Forall2 Qeq l k -> Forall2 Qeq k m -> Forall2 Qeq l m.
Proof.
  intros H. revert m. induction H; intros m Hm; inversion Hm; subst;
    constructor; [etransitivity; eassumption|auto].
Qed.

Lemma Forall2_replicate_l {A B : Type} (R : A -> B -> Prop) (a : A)
    (l : list B) :
  Forall (R a) l -> Forall2 R (replicate (length l) a) l.
Proof. induction 1; simpl; constructor; assumption. Qed.

Lemma fix_loop_numbers (N : Z) (xs : list Q) :
  forall (num : Z) (last_sf : list Q) (pending : list Q),
    num = Z.of_nat (length pending) ->
    length last_sf = Z.to_nat N ->
    Forall (broadcast_of N last_sf) pending ->
    exists runs,
      fix_loop N (map ENumber xs) num (Some last_sf) = Ok runs
      /\ Forall2 (broadcast_of N) (expand_runs runs) (pending ++ xs)%list.
Proof.
  induction xs as [|x xs IH]; intros num last_sf pending Hnum Hlen Hpend.
  - exists [(last_sf, num)]. split; [reflexivity|].
    unfold expand_runs. simpl. rewrite !app_nil_r. subst num.
    rewrite Nat2Z.id. apply Forall2_replicate_l. exact Hpend.
  - cbn [map fix_loop fix_entry]. simpl.
    assert (Hx : broadcast_of N (py_list_mul [x] N) x)
      by apply Forall2_Qeq_refl.
    destruct (any_differ last_sf (py_list_mul [x] N)) eqn:Hd.
    + destruct (IH (0 + 1) (py_list_mul [x] N) [x]) as (runs & Hruns & Hall).
      * reflexivity.
      * eapply broadcast_of_length; exact Hx.
      * constructor; [exact Hx|constructor].
      * rewrite Hruns. simpl. eexists. split; [reflexivity|].
        unfold expand_runs. cbn [flat_map fst snd].
        apply Forall2_app; [|exact Hall]. subst num. rewrite Nat2Z.id.
        apply Forall2_replicate_l. exact Hpend.
    + destruct (IH (num + 1) (py_list_mul [x] N) (pending ++ [x])%list)
        as (runs & Hruns & Hall).
      * rewrite length_app. simpl. lia.
      * eapply broadcast_of_length; exact Hx.
      * apply Forall_app. split; [|constructor; [exact Hx|constructor]].
        apply any_differ_false in Hd;
          [|rewrite Hlen; symmetry; eapply broadcast_of_length; exact Hx].
        eapply Forall_impl; [exact Hpend|]. intros y Hy. unfold broadcast_of.
        eapply Forall2_Qeq_trans; [|exact Hy].
        apply Forall2_Qeq_sym. exact Hd.
      * exists runs. split; [exact Hruns|].
        rewrite <- app_assoc in Hall. exact Hall.
Qed.

(** C3, as stated, fails: for a 2-d module the flat sequence [[1, 2]]
    yields two runs, [[1, 1]] and [[2, 2]], each of length 1, and not the
    single run [[1, 2]] of length the batch size (here 5). *)
Lemma flat_pair_gives_two_runs :
  _fix_scale_factors 2 (SIterable [ENumber 1; ENumber 2]) 5
  = Ok [([1%Q; 1%Q], 1); ([2%Q; 2%Q], 1)]
  /\ _fix_scale_factors 2 (SIterable [ENumber 1; ENumber 2]) 5
     <> Ok [([1%Q; 2%Q], 5)].
Proof. split; [reflexivity|discriminate]. Qed.

Lemma flat_sequence_runs (N : Z) (xs : list Q) (batch_size : Z) :
  exists runs,
    _fix_scale_factors N (SIterable (map ENumber xs)) batch_size = Ok runs
    /\ sum_Z (map snd runs) = Z.of_nat (length xs)
    /\ Forall2 (broadcast_of N) (expand_runs runs) xs.
Proof.
  assert (H : exists runs,
             fix_loop N (map ENumber xs) 0 None = Ok runs
             /\ Forall2 (broadcast_of N) (expand_runs runs) xs).
  { destruct xs as [|x xs].
    - exists []. split; [reflexivity|constructor].
    - cbn [map fix_loop fix_entry]. simpl.
      apply (fix_loop_numbers N xs (0 + 1) (py_list_mul [x] N) [x]).
      + reflexivity.
      + rewrite py_list_mul_singleton. apply length_replicate.
      + constructor; [apply Forall2_Qeq_refl|constructor]. }
  destruct H as (runs & Hruns & Hall). exists runs.
  split; [exact Hruns|]. split; [|exact Hall].
  destruct (fix_loop_lengths _ _ _ _ _ Hruns ltac:(lia)) as [_ Hsum].
  rewrite Hsum by (right; right; reflexivity).
  rewrite length_map. lia.
Qed.

Lemma length_expand_runs {A : Type} (runs : list (A * Z)) :
  Forall (fun r => 0 <= snd r) runs ->
  Z.of_nat (length (expand_runs runs)) = sum_Z (map snd runs).
Proof.
  induction 1 as [|r runs Hr _ IH]; [reflexivity|].
  unfold expand_runs in *. cbn [flat_map map sum_Z foldr].
  rewrite length_app, length_replicate, Nat2Z.inj_add, IH.
  fold (sum_Z (map snd runs)). lia.
Qed.

(** C7, as stated, fails: for a batch of 2 samples a sequence of 3
    entries is accepted, the run lengths add up to 3 and not to 2, and the
    batch cannot be split by them. *)
Lemma runs_need_not_cover_batch :
  exists runs,
    _fix_scale_factors 2 (SIterable [ENumber 1; ENumber 1; ENumber 1]) 2
    = Ok runs
    /\ sum_Z (map snd runs) = 3
    /\ sum_Z (map snd runs) <> 2
    /\ batch_split ["a"; "b"] (map snd runs) = Raise TorchError.
Proof.
  eexists. split; [reflexivity|]. split; [reflexivity|].
  split; [discriminate|reflexivity].
Qed.

(** C7 (amended).  For every scale-factor input the normaliser accepts:
    if the input is a sequence, the run lengths add up to the number of
    its entries, whatever the batch size; if the input is a single number,
    or a sequence with exactly one entry per sample of the batch, the run
    lengths add up to the batch size, the per-sample scale list has one
    entry per sample, and splitting the batch by the run lengths gives
    chunks of those lengths whose concatenation in run order is the
    batch. *)
Theorem runs_partition_batch (N : Z) (scale_factors : sf_input)
    (batch_size : Z) (runs : list (list Q * Z)) :
  _fix_scale_factors N scale_factors batch_size = Ok runs ->
  (forall entries, scale_factors = SIterable entries ->
                   sum_Z (map snd runs) = Z.of_nat (length entries))
  /\ ((forall entries, scale_factors = SIterable entries ->
                       Z.of_nat (length entries) = batch_size) ->
      sum_Z (map snd runs) = batch_size
      /\ forall (A : Type) (batch : list A),
          Z.of_nat (length batch) = batch_size ->
          length (expand_runs runs) = length batch
          /\ exists chunks,
              batch_split batch (map snd runs) = Ok chunks
              /\ Forall2 (fun c r => Z.of_nat (length c) = snd r) chunks runs
              /\ concat chunks = batch).
Proof.
  intros Hruns.
  assert (Hseq : forall entries, scale_factors = SIterable entries ->
                   sum_Z (map snd runs) = Z.of_nat (length entries)).
  { intros entries ->. simpl in Hruns.
    destruct (fix_loop_lengths _ _ _ _ _ Hruns ltac:(lia)) as [_ Hs].
    rewrite Hs by (right; right; reflexivity). lia. }
  split; [exact Hseq|]. intros Hlen.
  assert (H : Forall (fun r => 0 <= snd r) runs \/ batch_size < 0).
  { destruct scale_factors as [entries|x|]; simpl in Hruns; [| |discriminate].
    - left. eapply fix_loop_lengths; [exact Hruns|lia].
    - injection Hruns as <-. destruct (Z.le_gt_cases 0 batch_size); [|lia].
      left. repeat constructor. assumption. }
  assert (Hsum : sum_Z (map snd runs) = batch_size).
  { destruct scale_factors as [entries|x|]; simpl in Hruns; [| |discriminate].
    - destruct (fix_loop_lengths _ _ _ _ _ Hruns ltac:(lia)) as [_ Hs].
      rewrite Hs by (right; right; reflexivity).
      rewrite (Hlen entries eq_refl). lia.
    - injection Hruns as <-. simpl. lia. }
  split; [exact Hsum|]. intros A batch Hbatch.
  destruct H as [Hpos|Hneg]; [|lia].
  split.
  - apply Nat2Z.inj. rewrite length_expand_runs by assumption. lia.
  - destruct (batch_split_concat (map snd runs) batch) as (chunks & Hc & Hcat & Hl).
    + apply Forall_fmap. exact Hpos.
    + lia.
    + exists chunks. split; [exact Hc|]. split; [|exact Hcat].
      apply Forall2_fmap_r in Hl. exact Hl.
Qed.

(** C7 on a batch of three samples with one entry per sample, and on a
    batch of two samples with three entries. *)
Lemma runs_partition_batch_witness :
  let runs := [([1%Q; 2%Q], 1); ([2 # 2; 1%Q], 2)] in
  (sum_Z (map snd runs) = 3
   /\ exists chunks,
       batch_split ["a"; "b"; "c"] (map snd runs) = Ok chunks
       /\ Forall2 (fun c r => Z.of_nat (length c) = snd r) chunks runs
       /\ concat chunks = ["a"; "b"; "c"])
  /\ sum_Z (map snd [([1%Q; 1%Q], 3)]) = Z.of_nat 3.
Proof.
  intros runs. split.
  - destruct (proj2 (runs_partition_batch 2
                       (SIterable [ESequence [1; 2]%Q; ENumber 1;
                                   ESequence [2 # 2; 1]%Q])
                       3 runs eq_refl)) as [Hsum Hbatch].
    + intros entries [= <-]. reflexivity.
    + split; [exact Hsum|].
      exact (proj2 (Hbatch string ["a"; "b"; "c"] eq_refl)).
  - exact (proj1 (runs_partition_batch 2
                    (SIterable [ENumber 1; ENumber 1; ENumber 1]) 2
                    [([1%Q; 1%Q], 3)] eq_refl)
             [ENumber 1; ENumber 1; ENumber 1] eq_refl).
Defined.

(** ** The driver under [rescale] *)












Section DriverFacts.
Context {Tensor : Type} (ops : TorchOps Tensor).

End DriverFacts.



(** * Further properties of the planner *)

(** ** Closed forms over numerator and denominator *)

Lemma py_int_source (t : Z) (n : Z) (d : positive) :
  py_int (source_size t (n # d)) = Z.quot (t * n) (Zpos d).
Proof. reflexivity. Qed.

Lemma py_int_half_source (t : Z) (n : Z) (d : positive) :
  py_int (source_size t (n # d) / 2) = Z.quot (t * n) (2 * Zpos d).
Proof.
  unfold py_int, source_size. simpl. rewrite Z.mul_1_r.
  rewrite Pos.mul_comm. reflexivity.
Qed.

Lemma py_int_input_over_scale (i : Z) (n d : positive) :
  py_int (inject_Z i / (Zpos n # d)) = Z.quot (i * Zpos d) (Zpos n).
Proof. reflexivity. Qed.

Lemma calc_out_closed (i t : Z) (n : Z) (d : positive) (a : string) :
  calc_out i (n # d) t a
  = if (a =? "mid")%string && odd_mod2 (i - Z.quot (t * n) (Zpos d))
    then Z.quot (t * n) (2 * Zpos d) * 2
    else Z.quot (t * n) (Zpos d).
Proof.
  unfold calc_out. rewrite py_int_source, py_int_half_source. reflexivity.
Qed.

(** [out] never exceeds the source size, and misses it by less than 2
    (less than 1 without the parity rule). *)
Lemma calc_out_bounds (i t : Z) (n d : positive) (a : string) :
  0 <= t ->
  let out := calc_out i (Zpos n # d) t a in
  out * Zpos d <= t * Zpos n < (out + 2) * Zpos d
  /\ ((a =? "mid")%string = false -> t * Zpos n < (out + 1) * Zpos d).
Proof.
  intros Ht out. subst out. rewrite calc_out_closed.
  assert (Hn : 0 <= t * Zpos n) by lia.
  generalize dependent (t * Zpos n). intros m Hm.
  destruct (a =? "mid")%string; simpl.
  - destruct (odd_mod2 _); (split; [|discriminate]);
      Z.to_euclidean_division_equations; nia.
  - split; [|intros _]; Z.to_euclidean_division_equations; nia.
Qed.

(** With a whole number [k] as scale factor the product
    [target_size * k] is itself an integer, and [out] is that integer. *)
Lemma calc_out_integer_scale (t k i : Z) (a : string) :
  calc_out i (inject_Z k) t a
  = if (a =? "mid")%string && odd_mod2 (i - t * k)
    then Z.quot (t * k) 2 * 2 else t * k.
Proof.
  change (inject_Z k) with (k # 1). rewrite calc_out_closed.
  rewrite Z.quot_1_r. reflexivity.
Qed.

(** Exact fit.  Whenever the planner's integer extent [out] equals the
    input size, the plan keeps the whole axis under every alignment: the
    slice is [slice(0, input_size)], nothing is padded, the interpolation
    target is the target size and the corrected scale is
    [input_size / target_size].  This is the case for a whole-number
    scale factor [k] and an input of size [target_size * k]. *)
Theorem exact_fit_keeps_whole_axis :
  (forall (i t : Z) (s : Q) (a : string),
      t <> 0 ->
      calc_out i s t a = i ->
      exists p,
        plan_axis i s t a = Ok p
        /\ crop_start p = 0 /\ crop_end p = i
        /\ padding p = (0, 0)
        /\ interp_target_size p = t
        /\ corrected_scale p = (inject_Z i / inject_Z t)%Q)
  /\ (forall (t k : Z) (a : string),
         calc_out (t * k) (inject_Z k) t a = t * k).
Proof.
  split.
  - intros i t s a Ht Hout.
    rewrite plan_axis_crop by lia. rewrite Hout. eexists.
    split; [reflexivity|].
    destruct (crop_branch_spec i i (inject_Z i / inject_Z t) t a)
      as (Hst & He & Hsc & Hpad & Hit).
    unfold expected_start in Hst. rewrite Z.sub_diag in Hst.
    change (Z.quot 0 2) with 0 in Hst.
    assert (Hst0 : crop_start
                     (crop_branch i i (inject_Z i / inject_Z t) t a) = 0).
    { rewrite Hst. destruct (a =? "from_end")%string; [reflexivity|].
      destruct (a =? "mid")%string; reflexivity. }
    split; [exact Hst0|]. split; [lia|]. split; [exact Hpad|].
    split; [exact Hit|exact Hsc].
  - intros t k a. rewrite calc_out_integer_scale, Z.sub_diag.
    rewrite andb_false_r. reflexivity.
Qed.

(** The exact fit of the scenario: input size 10, target size 5, scale
    factor 2.0, under [mid]. *)
Lemma exact_fit_keeps_whole_axis_witness :
  exists p,
    plan_axis 10 2 5 "mid" = Ok p
    /\ crop_start p = 0 /\ crop_end p = 10
    /\ padding p = (0, 0)
    /\ interp_target_size p = 5
    /\ corrected_scale p = (inject_Z 10 / inject_Z 5)%Q.
Proof.
  apply (proj1 exact_fit_keeps_whole_axis 10 5 2%Q "mid"); [lia|].
  exact (proj2 exact_fit_keeps_whole_axis 5 2 "mid").
Defined.

Lemma plan_extents_sum (i t : Z) (s : Q) (a : string) (p : AxisPlan) :
  plan_axis i s t a = Ok p ->
  pad_before p + interp_target_size p + pad_after p = t.
Proof.
  intros Hp. apply plan_axis_Ok in Hp as [_ [[_ Hp]|[_ ->]]].
  - apply pad_branch_Ok in Hp as (_ & _ & _ & _ & Hsum & _). lia.
  - destruct (crop_branch_spec i (calc_out i s t a)
                (inject_Z (calc_out i s t a) / inject_Z t) t a)
      as (_ & _ & _ & Hpad & Hit).
    unfold pad_before, pad_after. rewrite Hpad, Hit. simpl. lia.
Qed.

(** The extents add up.  For every plan the planner returns, the padding
    before, the interpolation target and the padding after make up the
    target size: cropping, interpolating and padding an axis by the plan
    gives it the requested extent. *)
Theorem plan_fills_target (i t : Z) (s : Q) (a : string) (p : AxisPlan) :
  plan_axis i s t a = Ok p ->
  pad_before p + interp_target_size p + pad_after p = t.
Proof. apply plan_extents_sum. Qed.

Lemma plan_fills_target_witness :
  let p := mkAxisPlan 0 4 (4 # 4) (3, 3) 4 in
  plan_axis 4 1 10 "mid" = Ok p
  /\ pad_before p + interp_target_size p + pad_after p = 10.
Proof.
  intros p. split; [reflexivity|].
  exact (plan_fills_target 4 10 1 "mid" p eq_refl).
Defined.

Lemma positive_scale_inv (s : Q) :
  (0 < s)%Q -> exists n d, s = Zpos n # d.
Proof.
  destruct s as [[|n|n] d]; unfold Qlt; simpl; intros H; try lia.
  exists n, d. reflexivity.
Qed.

(** In the padding branch the interpolation target is short of the
    target size. *)
Lemma pad_branch_interp_lt (i t : Z) (n d : positive) (a : string) :
  0 <= i -> 0 <= t ->
  calc_out i (Zpos n # d) t a > i ->
  0 <= Z.quot (i * Zpos d) (Zpos n) < t.
Proof.
  intros Hi Ht Hgt.
  destruct (calc_out_bounds i t n d a Ht) as [[Hlo _] _].
  assert (H : (i + 1) * Zpos d <= t * Zpos n) by nia.
  Z.to_euclidean_division_equations. nia.
Qed.

(** Padding is real padding.  For a non-negative input size and positive
    target size and scale factor, a plan from the padding branch keeps the
    whole input, interpolates it to at least 1 and fewer than
    [target_size] points, and its two pads are non-negative and not both
    zero: [F.pad] is never asked to cut. *)
Theorem pad_branch_pads_are_positive (i t : Z) (s : Q) (a : string)
    (p : AxisPlan) :
  0 <= i -> 0 < t -> (0 < s)%Q ->
  calc_out i s t a > i ->
  plan_axis i s t a = Ok p ->
  crop_start p = 0 /\ crop_end p = i
  /\ 1 <= interp_target_size p < t
  /\ 0 <= pad_before p /\ 0 <= pad_after p
  /\ 0 < pad_before p + pad_after p.
Proof.
  intros Hi Ht Hs Hgt Hp.
  destruct (positive_scale_inv s Hs) as (n & d & ->).
  apply plan_axis_Ok in Hp as [_ [[_ Hp]|[Hle _]]]; [|lia].
  apply pad_branch_Ok in Hp as (Hst & He & Hit & Hpad & Hsum & Hnz & _).
  rewrite Qeq_bool_inject_0 in Hnz. apply Z.eqb_neq in Hnz.
  rewrite py_int_input_over_scale in Hit.
  pose proof (pad_branch_interp_lt i t n d a Hi ltac:(lia) Hgt) as Hlt.
  rewrite <- Hit in Hlt.
  split; [exact Hst|]. split; [exact He|]. split; [lia|].
  unfold pad_before, pad_after in *. rewrite Hpad in *.
  unfold expected_padding.
  assert (Hfp : 0 < t - interp_target_size p) by lia.
  revert Hsum Hfp. generalize (t - interp_target_size p). intros fp.
  unfold expected_padding.
  destruct (a =? "from_end")%string; [simpl; lia|].
  destruct (a =? "mid")%string; simpl; [|lia].
  intros Hsum Hfp. Z.to_euclidean_division_equations. lia.
Qed.

Lemma pad_branch_pads_are_positive_witness :
  let p := mkAxisPlan 0 4 (4 # 4) (6, 0) 4 in
  plan_axis 4 1 10 "from_end" = Ok p
  /\ 1 <= interp_target_size p < 10
  /\ 0 < pad_before p + pad_after p.
Proof.
  intros p. split; [reflexivity|].
  destruct (pad_branch_pads_are_positive 4 10 1 "from_end" p)
    as (_ & _ & Hit & _ & _ & Hsum).
  - lia.
  - lia.
  - reflexivity.
  - vm_compute; reflexivity.
  - reflexivity.
  - split; assumption.
Defined.

Lemma positive_scale_nonzero (s : Q) : (0 < s)%Q -> Qeq_bool s 0 = false.
Proof.
  intros Hs. apply not_true_is_false. intros H. apply Qeq_bool_iff in H.
  rewrite H in Hs. discriminate.
Qed.

(** Where the planner can raise.  For a non-negative input size, positive
    target size and scale factor, and a source size
    [target_size * scale_factor] within the finite floats (beyond them the
    product is [inf] and [int()] itself raises [OverflowError], a case the
    rational numbers of this development do not have), the planner raises
    only in the padding branch, and only [NotImplementedError] (under
    [mid], odd [interp_target_size - target_size]) or [ZeroDivisionError]
    (when [int(input_size / scale_factor)] is 0).  Every call of the crop /
    exact-fit branch returns. *)
Theorem planner_raises_only_when_padding (i t : Z) (s : Q) (a : string)
    (e : py_error) :
  0 <= i -> 0 < t -> (0 < s)%Q ->
  (source_size t s <= float_max)%Q ->
  plan_axis i s t a = Raise e ->
  calc_out i s t a > i
  /\ ((e = NotImplementedError /\ a = "mid"
       /\ (py_int (inject_Z i / s) - t) mod 2 <> 0)
      \/ (e = ZeroDivisionError /\ py_int (inject_Z i / s) = 0)).
Proof.
  intros Hi Ht Hs _ Hr.
  destruct (Z.le_gt_cases (calc_out i s t a) i) as [Hle|Hgt].
  { rewrite plan_axis_crop in Hr by lia. discriminate. }
  split; [lia|].
  rewrite plan_axis_pad in Hr by lia.
  unfold pad_branch, py_truediv in Hr.
  destruct (pad_distribution a) as [p0 p1].
  rewrite (positive_scale_nonzero s Hs) in Hr. simpl in Hr.
  destruct (a =? "mid")%string eqn:Hmid; simpl in Hr.
  - destruct (odd_mod2 _) eqn:Hodd.
    + left. injection Hr as <-. apply String.eqb_eq in Hmid.
      unfold odd_mod2 in Hodd. apply negb_true_iff, Z.eqb_neq in Hodd. auto.
    + right. rewrite Qeq_bool_inject_0 in Hr.
      destruct (Z.eqb_spec (py_int (inject_Z i / s)) 0); [|discriminate].
      injection Hr as <-. auto.
  - right. rewrite Qeq_bool_inject_0 in Hr.
    destruct (Z.eqb_spec (py_int (inject_Z i / s)) 0); [|discriminate].
    injection Hr as <-. auto.
Qed.

Lemma planner_raises_only_when_padding_witness :
  plan_axis 1 2 5 "from_start" = Raise ZeroDivisionError
  /\ calc_out 1 2 5 "from_start" > 1
  /\ py_int (inject_Z 1 / 2) = 0.
Proof.
  split; [reflexivity|].
  destruct (planner_raises_only_when_padding 1 5 2 "from_start"
              ZeroDivisionError) as [Hgt [(H & _)|(_ & H0)]].
  - lia.
  - lia.
  - reflexivity.
  - vm_compute. discriminate.
  - reflexivity.
  - discriminate H.
  - split; assumption.
Defined.

(** Input shorter than the scale factor.  In the padding branch, when the
    input size is below the scale factor the interpolation target
    [int(input_size / scale_factor)] is 0 and the planner raises
    [ZeroDivisionError] on [input_size / 0], unless it is [mid] with an odd
    target size (then [NotImplementedError] comes first). *)
Theorem short_input_raises_zero_division (i t : Z) (s : Q) (a : string) :
  0 <= i -> 0 < t ->
  (inject_Z i < s)%Q ->
  calc_out i s t a > i ->
  a <> "mid" \/ t mod 2 = 0 ->
  plan_axis i s t a = Raise ZeroDivisionError.
Proof.
  intros Hi Ht His Hgt Ha.
  assert (Hs : (0 < s)%Q).
  { eapply Qle_lt_trans; [|exact His]. unfold Qle; simpl. lia. }
  destruct (positive_scale_inv s Hs) as (n & d & ->).
  assert (Hz : py_int (inject_Z i / (Zpos n # d)) = 0).
  { rewrite py_int_input_over_scale. unfold Qlt in His; simpl in His.
    apply Z.quot_small. lia. }
  rewrite plan_axis_pad by lia.
  unfold pad_branch, py_truediv.
  destruct (pad_distribution a) as [p0 p1].
  rewrite (positive_scale_nonzero _ Hs). simpl. rewrite Hz.
  assert (Hcheck : (a =? "mid")%string && odd_mod2 (0 - t) = false).
  { destruct Ha as [Ha|Ha].
    - apply String.eqb_neq in Ha. rewrite Ha. reflexivity.
    - apply andb_false_iff. right. unfold odd_mod2.
      apply negb_false_iff, Z.eqb_eq.
      Z.to_euclidean_division_equations. lia. }
  rewrite Hcheck. reflexivity.
Qed.

Lemma short_input_raises_zero_division_witness :
  plan_axis 1 2 6 "mid" = Raise ZeroDivisionError.
Proof.
  apply short_input_raises_zero_division.
  - lia.
  - lia.
  - reflexivity.
  - vm_compute; reflexivity.
  - right. reflexivity.
Defined.

(** The integer extent stays close to the source size.  For a
    non-negative target size and a positive scale factor, [out] is not
    negative, never exceeds the source size
    [target_size * scale_factor], and is short of it by less than 1, or by
    less than 2 under [mid], where the parity rule may take one more
    element away. *)
Theorem out_close_to_source_size (i t : Z) (s : Q) (a : string) :
  0 <= t -> (0 < s)%Q ->
  0 <= calc_out i s t a
  /\ (inject_Z (calc_out i s t a) <= source_size t s)%Q
  /\ (source_size t s < inject_Z (calc_out i s t a) + 2)%Q
  /\ (a <> "mid" -> (source_size t s < inject_Z (calc_out i s t a) + 1)%Q).
Proof.
  intros Ht Hs.
  split; [apply calc_out_nonneg; [exact Ht|apply Qlt_le_weak; exact Hs]|].
  destruct (positive_scale_inv s Hs) as (n & d & ->).
  destruct (calc_out_bounds i t n d a Ht) as [[Hlo Hhi] Hnm].
  revert Hlo Hhi Hnm. generalize (calc_out i (Zpos n # d) t a).
  intros out Hlo Hhi Hnm. unfold source_size.
  split; [|split].
  - unfold Qle; simpl. nia.
  - unfold Qlt; simpl. nia.
  - intros Ha. apply String.eqb_neq in Ha. specialize (Hnm Ha).
    unfold Qlt; simpl. nia.
Qed.

(** The bounds at target size 5 and scale factor 1.75 (source size 8.75,
    [out] 8). *)
Lemma out_close_to_source_size_witness :
  calc_out 9 (7 # 4) 5 "from_end" = 8
  /\ (inject_Z (calc_out 9 (7 # 4) 5 "from_end") <= source_size 5 (7 # 4))%Q
  /\ (source_size 5 (7 # 4)
      < inject_Z (calc_out 9 (7 # 4) 5 "from_end") + 1)%Q.
Proof.
  split; [reflexivity|].
  destruct (out_close_to_source_size 9 5 (7 # 4) "from_end")
    as (_ & Hle & _ & Hlt).
  - lia.
  - reflexivity.
  - split; [exact Hle|]. apply Hlt. discriminate.
Defined.

(** Under [mid], when the parity rule fires the extent is even. *)
Lemma calc_out_mid_parity (i t : Z) (s : Q) :
  let out := calc_out i s t "mid" in
  (i - out) mod 2 = 0 \/ out mod 2 = 0.
Proof.
  unfold calc_out. simpl.
  destruct (odd_mod2 (i - py_int (source_size t s))) eqn:Hodd.
  - right. apply Z.mod_mul. lia.
  - left. apply odd_mod2_false. exact Hodd.
Qed.

(** Centring.  In the crop / exact-fit branch under [mid], the window
    leaves as much before as after, or one element more after; for an
    even input size it is exactly centred. *)
Theorem mid_crop_is_centred (i t : Z) (s : Q) (p : AxisPlan) :
  calc_out i s t "mid" <= i ->
  plan_axis i s t "mid" = Ok p ->
  crop_start p <= i - crop_end p <= crop_start p + 1
  /\ (i mod 2 = 0 -> crop_start p = i - crop_end p).
Proof.
  intros Hle Hp.
  apply plan_axis_Ok in Hp as [_ [[Hgt _]|[_ ->]]]; [lia|].
  destruct (crop_branch_spec i (calc_out i s t "mid")
              (inject_Z (calc_out i s t "mid") / inject_Z t) t "mid")
    as (Hst & He & _).
  rewrite He, Hst. unfold expected_start. simpl.
  pose proof (calc_out_mid_parity i t s) as Hpar. simpl in Hpar.
  revert Hle Hpar. generalize (calc_out i s t "mid"). intros out Hle Hpar.
  split.
  - Z.to_euclidean_division_equations. lia.
  - intros Hi. Z.to_euclidean_division_equations. lia.
Qed.

Lemma mid_crop_is_centred_witness :
  let p := mkAxisPlan 1 9 (8 # 4) (0, 0) 4 in
  plan_axis 10 2 4 "mid" = Ok p
  /\ crop_start p = 10 - crop_end p.
Proof.
  intros p. split; [reflexivity|].
  destruct (mid_crop_is_centred 10 4 2 p) as [_ H].
  - vm_compute. discriminate.
  - reflexivity.
  - apply H. reflexivity.
Defined.

(** * Further properties of the normaliser *)

Lemma py_list_mul_one {A : Type} (l : list A) : py_list_mul l 1 = l.
Proof. unfold py_list_mul. simpl. apply app_nil_r. Qed.

Lemma fix_entry_valid (N : Z) (e : sf_entry) :
  valid_entry N e ->
  exists sf, fix_entry N e = Ok sf /\ length sf = Z.to_nat N.
Proof.
  destruct e as [x|l|]; simpl; [intros _|intros Hl|contradiction].
  - eexists. split; [reflexivity|].
    rewrite py_list_mul_singleton. apply length_replicate.
  - rewrite Hl, Z.eqb_refl. simpl.
    destruct (Z.eqb_spec N 1) as [->|_].
    + eexists. split; [reflexivity|]. rewrite py_list_mul_one. lia.
    + eexists. split; [reflexivity|]. lia.
Qed.

Lemma fix_entry_invalid (N : Z) (e : sf_entry) :
  ~ valid_entry N e -> fix_entry N e = Raise ValueError.
Proof.
  destruct e as [x|l|]; simpl; intros H; [tauto| |reflexivity].
  destruct (Z.eqb_spec (Z.of_nat (length l)) N); [contradiction|reflexivity].
Qed.

Lemma valid_entry_dec (N : Z) (e : sf_entry) :
  valid_entry N e \/ ~ valid_entry N e.
Proof.
  destruct e as [x|l|]; simpl; [tauto| |tauto].
  destruct (Z.eq_dec (Z.of_nat (length l)) N); tauto.
Qed.

Lemma fix_loop_accepts (N : Z) (entries : list sf_entry) :
  forall (num : Z) (last_sf : option (list Q)),
    (Forall (valid_entry N) entries ->
     exists runs, fix_loop N entries num last_sf = Ok runs)
    /\ (~ Forall (valid_entry N) entries ->
        fix_loop N entries num last_sf = Raise ValueError).
Proof.
  induction entries as [|e rest IH]; intros num last_sf.
  - split.
    + intros _. simpl. destruct last_sf; eexists; reflexivity.
    + intros H. exfalso. apply H. constructor.
  - split.
    + intros Hall. inversion Hall as [|? ? He Hrest]; subst.
      destruct (fix_entry_valid N e He) as (sf & Hsf & _).
      simpl. rewrite Hsf. simpl.
      destruct last_sf as [l|].
      * destruct (any_differ l sf).
        -- destruct (proj1 (IH (0 + 1) (Some sf)) Hrest) as [runs ->].
           eexists. reflexivity.
        -- exact (proj1 (IH (num + 1) (Some sf)) Hrest).
      * exact (proj1 (IH (num + 1) (Some sf)) Hrest).
    + intros Hnot. simpl.
      destruct (valid_entry_dec N e) as [He|He].
      * assert (Hrest : ~ Forall (valid_entry N) rest).
        { intros H. apply Hnot. constructor; assumption. }
        destruct (fix_entry_valid N e He) as (sf & -> & _). simpl.
        destruct last_sf as [l|].
        -- destruct (any_differ l sf).
           ++ rewrite (proj2 (IH (0 + 1) (Some sf)) Hrest). reflexivity.
           ++ exact (proj2 (IH (num + 1) (Some sf)) Hrest).
        -- exact (proj2 (IH (num + 1) (Some sf)) Hrest).
      * rewrite (fix_entry_invalid N e He). reflexivity.
Qed.

(** What the normaliser accepts.  A sequence of entries is accepted
    exactly when every entry is a number or a sequence of exactly [N]
    numbers; otherwise the normaliser raises [ValueError].  In particular
    a one-element entry is rejected unless [N] is 1. *)
Theorem normaliser_accepts_iff_entries_valid (N : Z)
    (entries : list sf_entry) (batch_size : Z) :
  (Forall (valid_entry N) entries ->
   exists runs, _fix_scale_factors N (SIterable entries) batch_size = Ok runs)
  /\ (~ Forall (valid_entry N) entries ->
      _fix_scale_factors N (SIterable entries) batch_size = Raise ValueError)
  /\ (forall x, N <> 1 ->
      _fix_scale_factors N (SIterable (ESequence [x] :: entries)) batch_size
      = Raise ValueError).
Proof.
  split; [|split].
  - exact (proj1 (fix_loop_accepts N entries 0 None)).
  - exact (proj2 (fix_loop_accepts N entries 0 None)).
  - intros x HN.
    apply (proj2 (fix_loop_accepts N (ESequence [x] :: entries) 0 None)).
    intros H. inversion H as [|? ? He _]; subst. simpl in He. lia.
Qed.

Lemma normaliser_accepts_iff_entries_valid_witness :
  (exists runs,
      _fix_scale_factors 2
        (SIterable [ENumber 1; ESequence [1; 2]%Q]) 2 = Ok runs)
  /\ _fix_scale_factors 2
       (SIterable [ENumber 1; ESequence [1; 2; 3]%Q]) 2 = Raise ValueError.
Proof.
  split.
  - apply (proj1 (normaliser_accepts_iff_entries_valid 2
                    [ENumber 1; ESequence [1; 2]%Q] 2)).
    repeat constructor.
  - apply (proj1 (proj2 (normaliser_accepts_iff_entries_valid 2
                           [ENumber 1; ESequence [1; 2; 3]%Q] 2))).
    intros H. inversion H as [|? ? _ H1]; subst.
    inversion H1 as [|? ? H2 _]; subst. discriminate H2.
Defined.

Lemma any_differ_Qeq_r (l v w : list Q) :
  Forall2 Qeq v w -> any_differ l v = any_differ l w.
Proof.
  intros H. revert l. induction H as [|a b v w Hab _ IH]; intros l.
  - destruct l; reflexivity.
  - destruct l as [|c l]; [reflexivity|].
    unfold any_differ in *. simpl. rewrite IH. f_equal. f_equal.
    destruct (Qeq_bool c a) eqn:Hca.
    + symmetry. apply Qeq_bool_iff. apply Qeq_bool_iff in Hca.
      rewrite Hca. exact Hab.
    + symmetry. apply not_true_is_false. intros Hcb.
      apply Qeq_bool_iff in Hcb. apply Qeq_bool_neq in Hca. apply Hca.
      rewrite Hcb. symmetry. exact Hab.
Qed.

Lemma fix_entry_length (N : Z) (e : sf_entry) (sf : list Q) :
  fix_entry N e = Ok sf -> length sf = Z.to_nat N.
Proof.
  intros Hsf. destruct (valid_entry_dec N e) as [He|He].
  - destruct (fix_entry_valid N e He) as (sf' & Hsf' & Hlen). congruence.
  - rewrite (fix_entry_invalid N e He) in Hsf. discriminate.
Qed.

Lemma fix_loop_runs (N : Z) (entries : list sf_entry) :
  forall (num : Z) (last_sf : list Q) (runs : list (list Q * Z)),
    fix_loop N entries num (Some last_sf) = Ok runs ->
    1 <= num ->
    length last_sf = Z.to_nat N ->
    (exists r rest, runs = r :: rest /\ Forall2 Qeq last_sf (fst r))
    /\ Forall (fun r => 1 <= snd r /\ length (fst r) = Z.to_nat N) runs
    /\ adjacent_differ runs.
Proof.
  induction entries as [|e rest IH]; intros num last_sf runs Hruns Hnum Hlen.
  - injection Hruns as <-. split; [|split].
    + eexists _, _. split; [reflexivity|]. apply Forall2_Qeq_refl.
    + repeat constructor; assumption.
    + simpl. auto.
  - simpl in Hruns.
    destruct (fix_entry N e) as [sf|] eqn:Hsf; simpl in Hruns; [|discriminate].
    pose proof (fix_entry_length N e sf Hsf) as Hsflen.
    destruct (any_differ last_sf sf) eqn:Hd.
    + destruct (fix_loop N rest (0 + 1) (Some sf)) as [runs'|] eqn:Hr;
        simpl in Hruns; [|discriminate].
      injection Hruns as <-.
      destruct (IH _ _ _ Hr ltac:(lia) Hsflen)
        as ((r & tl & -> & Hq) & Hall & Hadj).
      split; [|split].
      * eexists _, _. split; [reflexivity|]. apply Forall2_Qeq_refl.
      * constructor; [split; assumption|exact Hall].
      * cbn [adjacent_differ fst]. split; [|exact Hadj].
        rewrite <- (any_differ_Qeq_r last_sf sf (fst r) Hq). exact Hd.
    + destruct (IH _ _ _ Hruns ltac:(lia) Hsflen)
        as ((r & tl & -> & Hq) & Hall & Hadj).
      split; [|split; assumption].
      eexists _, _. split; [reflexivity|].
      eapply Forall2_Qeq_trans; [|exact Hq].
      apply any_differ_false; [exact Hd|lia].
Qed.

(** Shape of the runs.  For a sequence the normaliser accepts, every run
    covers at least one sample, every scale vector has exactly [N]
    entries, and each run differs from the one after it, so that no two
    neighbouring runs could have been merged. *)
Theorem runs_are_maximal (N : Z) (entries : list sf_entry) (batch_size : Z)
    (runs : list (list Q * Z)) :
  _fix_scale_factors N (SIterable entries) batch_size = Ok runs ->
  Forall (fun r => 1 <= snd r /\ length (fst r) = Z.to_nat N) runs
  /\ adjacent_differ runs.
Proof.
  simpl. destruct entries as [|e rest]; simpl.
  - intros [= <-]. split; [constructor|exact I].
  - destruct (fix_entry N e) as [sf|] eqn:Hsf; simpl; [|discriminate].
    intros Hruns.
    destruct (fix_loop_runs N rest (0 + 1) sf runs Hruns ltac:(lia)
                (fix_entry_length N e sf Hsf)) as (_ & Hall & Hadj).
    split; assumption.
Qed.

Lemma runs_are_maximal_witness :
  let runs := [([1%Q; 2%Q], 1); ([2 # 2; 1%Q], 2)] in
  Forall (fun r => 1 <= snd r /\ length (fst r) = 2%nat) runs
  /\ adjacent_differ runs.
Proof.
  intros runs.
  exact (runs_are_maximal 2
           [ESequence [1; 2]%Q; ENumber 1; ESequence [2 # 2; 1]%Q] 3 runs
           eq_refl).
Defined.

Lemma iterable_runs_shape (N : Z) (entries : list sf_entry)
    (runs : list (list Q * Z)) :
  fix_loop N entries 0 None = Ok runs ->
  Forall (fun r => 1 <= snd r) runs /\ adjacent_differ runs.
Proof.
  destruct entries as [|e rest]; simpl.
  - intros [= <-]. split; [constructor|exact I].
  - destruct (fix_entry N e) as [sf|] eqn:Hsf; simpl; [|discriminate].
    intros Hruns.
    destruct (fix_loop_runs N rest (0 + 1) sf runs Hruns ltac:(lia)
                (fix_entry_length N e sf Hsf)) as (_ & Hall & Hadj).
    split; [|exact Hadj].
    eapply Forall_impl; [exact Hall|]. intros r [Hr _]. exact Hr.
Qed.

Lemma Forall2_replicate_inv {A B : Type} (R : A -> B -> Prop) (a : A)
    (n : nat) (l : list B) :
  Forall2 R (replicate n a) l -> Forall (R a) l.
Proof.
  revert l. induction n as [|n IH]; intros l H; inversion H; subst;
    constructor; auto.
Qed.

Lemma all_Qeq_of_broadcast (N : Z) (v : list Q) (y : Q) :
  broadcast_of N v y -> Forall (fun x => (x == y)%Q) v.
Proof.
  unfold broadcast_of. rewrite py_list_mul_singleton.
  generalize (Z.to_nat N). intros n H. revert n H.
  induction v as [|x v IH]; intros n H; [constructor|].
  destruct n as [|n]; inversion H; subst. constructor; [assumption|].
  eapply IH. eassumption.
Qed.

(** C3 (amended).  A flat sequence of numbers is read as one number per
    sample.  The normaliser accepts it whatever the batch size; every
    sample's scale vector is its own number repeated over the N axes (up
    to numeric equality); every run covers at least one sample and differs
    from the run after it, so that consecutive equal numbers are always
    merged into one run; and the run lengths add up to the length of the
    sequence.  The result is the single run made of the sequence itself
    and the batch size only if the batch size is the length of the
    sequence and all its numbers are equal. *)
Theorem flat_sequence_is_per_sample (N : Z) (xs : list Q) (batch_size : Z) :
  exists runs,
    _fix_scale_factors N (SIterable (map ENumber xs)) batch_size = Ok runs
    /\ sum_Z (map snd runs) = Z.of_nat (length xs)
    /\ Forall2 (broadcast_of N) (expand_runs runs) xs
    /\ Forall (fun r => 1 <= snd r) runs
    /\ adjacent_differ runs
    /\ (runs = [(xs, batch_size)] ->
        batch_size = Z.of_nat (length xs)
        /\ forall x y, In x xs -> In y xs -> (x == y)%Q).
Proof.
  destruct (flat_sequence_runs N xs batch_size) as (runs & Hruns & Hsum & Hall).
  exists runs. split; [exact Hruns|]. split; [exact Hsum|].
  split; [exact Hall|].
  destruct (iterable_runs_shape N (map ENumber xs) runs Hruns) as [Hpos Hadj].
  split; [exact Hpos|]. split; [exact Hadj|].
  intros ->. simpl in Hsum. split; [lia|].
  intros x y Hx Hy.
  unfold expand_runs in Hall. simpl in Hall. rewrite app_nil_r in Hall.
  apply Forall2_replicate_inv in Hall.
  rewrite Forall_forall in Hall. apply list_elem_of_In in Hy.
  specialize (Hall y Hy). apply all_Qeq_of_broadcast in Hall.
  rewrite Forall_forall in Hall. apply Hall. apply list_elem_of_In. exact Hx.
Qed.

Lemma any_differ_same (v : list Q) : any_differ v v = false.
Proof.
  unfold any_differ. induction v as [|x v IH]; [reflexivity|].
  simpl. rewrite IH, Qeq_bool_refl. reflexivity.
Qed.

Lemma fix_loop_constant (N : Z) (x : Q) (k : nat) :
  forall num : Z,
    fix_loop N (replicate k (ENumber x)) num (Some (py_list_mul [x] N))
    = Ok [(py_list_mul [x] N, num + Z.of_nat k)].
Proof.
  induction k as [|k IH]; intros num.
  - simpl. rewrite Z.add_0_r. reflexivity.
  - cbn [replicate fix_loop fix_entry]. simpl.
    rewrite any_differ_same, IH. do 3 f_equal. lia.
Qed.

(** A number is the sequence that repeats it.  For a non-empty batch, the
    normaliser returns for a single number [x] the same single run as for
    the sequence that gives [x] once per sample. *)
Theorem number_is_uniform_sequence (N : Z) (x : Q) (k : nat) (batch_size : Z) :
  (0 < k)%nat ->
  batch_size = Z.of_nat k ->
  _fix_scale_factors N (SIterable (replicate k (ENumber x))) batch_size
  = _fix_scale_factors N (SNumber x) batch_size.
Proof.
  intros Hk ->. destruct k as [|k]; [lia|].
  cbn [_fix_scale_factors replicate fix_loop fix_entry]. simpl.
  rewrite fix_loop_constant. do 3 f_equal. lia.
Qed.

Lemma number_is_uniform_sequence_witness :
  _fix_scale_factors 3 (SIterable [ENumber 2; ENumber 2; ENumber 2]) 3
  = _fix_scale_factors 3 (SNumber 2) 3.
Proof.
  apply (number_is_uniform_sequence 3 2 3 3); [lia|reflexivity].
Defined.

(** * Further properties of the modules and the driver *)

Lemma reciprocals_Ok (scale_f r : list Q) :
  reciprocals scale_f = Ok r ->
  Forall nonzero scale_f /\ r = map recip scale_f.
Proof.
  revert r. induction scale_f as [|x l IH]; intros r Hr.
  - injection Hr as <-. split; [constructor|reflexivity].
  - simpl in Hr. unfold py_truediv at 1 in Hr.
    destruct (Qeq_bool x 0) eqn:Hx; [discriminate|]. simpl in Hr.
    destruct (reciprocals l) as [rs|]; simpl in Hr; [|discriminate].
    injection Hr as <-. destruct (IH rs eq_refl) as [Hl ->].
    split; [|reflexivity]. constructor; [|exact Hl].
    intros H. apply Qeq_bool_iff in H. congruence.
Qed.

Lemma reciprocals_zero (scale_f : list Q) :
  Exists (fun x => (x == 0)%Q) scale_f ->
  reciprocals scale_f = Raise ZeroDivisionError.
Proof.
  induction 1 as [x l Hx|x l _ IH]; simpl.
  - apply Qeq_bool_iff in Hx. unfold py_truediv. rewrite Hx. reflexivity.
  - unfold py_truediv at 1. destruct (Qeq_bool x 0); [reflexivity|].
    simpl. rewrite IH. reflexivity.
Qed.

(** The alignments of the 2-d crop positions.  A module that [Zoom2d]
    accepts has one of the five crop positions, and its vertical and
    horizontal alignments are those of this table. *)
Theorem zoom2d_alignment_table (interpolation_mode crop_position : string)
    (self : ZoomModule) :
  Zoom2d interpolation_mode crop_position = Ok self ->
  _N self = 2
  /\ In (_crop_position self, alignments_2d (_crop_position self))
       [("top_left", ("from_start", "from_start"));
        ("bottom_left", ("from_end", "from_start"));
        ("top_right", ("from_start", "from_end"));
        ("bottom_right", ("from_end", "from_end"));
        ("center", ("mid", "mid"))].
Proof.
  unfold Zoom2d. destruct (negb (str_in interpolation_mode _)); [discriminate|].
  destruct (negb (str_in crop_position _)) eqn:Hpos; [discriminate|].
  intros [= <-]. split; [reflexivity|]. cbn [_crop_position].
  apply negb_false_iff in Hpos. unfold str_in in Hpos.
  apply existsb_exists in Hpos as (pos & Hin & Heq).
  apply String.eqb_eq in Heq. subst pos.
  simpl in Hin.
  destruct Hin as [<-|[<-|[<-|[<-|[<-|[]]]]]]; vm_compute; tauto.
Qed.

Lemma zoom2d_alignment_table_witness :
  In ("bottom_left", alignments_2d "bottom_left")
    [("top_left", ("from_start", "from_start"));
     ("bottom_left", ("from_end", "from_start"));
     ("top_right", ("from_start", "from_end"));
     ("bottom_right", ("from_end", "from_end"));
     ("center", ("mid", "mid"))].
Proof.
  exact (proj2 (zoom2d_alignment_table "bilinear" "bottom_left"
                  (mkZoom Zoom2d_class "bilinear" "bottom_left") eq_refl)).
Defined.

(** The alignments of the 3-d crop positions.  A module that [Zoom3d]
    accepts has one of the nine crop positions, and its depth, vertical
    and horizontal alignments are those of this table. *)
Theorem zoom3d_alignment_table (interpolation_mode crop_position : string)
    (self : ZoomModule) :
  Zoom3d interpolation_mode crop_position = Ok self ->
  _N self = 3
  /\ In (_crop_position self, alignments_3d (_crop_position self))
       [("front_top_left", ("from_start", "from_start", "from_start"));
        ("back_top_left", ("from_end", "from_start", "from_start"));
        ("front_bottom_left", ("from_start", "from_end", "from_start"));
        ("back_bottom_left", ("from_end", "from_end", "from_start"));
        ("front_top_right", ("from_start", "from_start", "from_end"));
        ("back_top_right", ("from_end", "from_start", "from_end"));
        ("front_bottom_right", ("from_start", "from_end", "from_end"));
        ("back_bottom_right", ("from_end", "from_end", "from_end"));
        ("center", ("mid", "mid", "mid"))].
Proof.
  unfold Zoom3d. destruct (negb (str_in interpolation_mode _)); [discriminate|].
  destruct (negb (str_in crop_position _)) eqn:Hpos; [discriminate|].
  intros [= <-]. split; [reflexivity|]. cbn [_crop_position].
  apply negb_false_iff in Hpos. unfold str_in in Hpos.
  apply existsb_exists in Hpos as (pos & Hin & Heq).
  apply String.eqb_eq in Heq. subst pos.
  simpl in Hin.
  destruct Hin as [<-|[<-|[<-|[<-|[<-|[<-|[<-|[<-|[<-|[]]]]]]]]]];
    vm_compute; tauto.
Qed.

Lemma zoom3d_alignment_table_witness :
  _N (mkZoom Zoom3d_class "trilinear" "back_bottom_right") = 3.
Proof.
  exact (proj1 (zoom3d_alignment_table "trilinear" "back_bottom_right"
                  (mkZoom Zoom3d_class "trilinear" "back_bottom_right")
                  eq_refl)).
Defined.

Lemma calculate_crop_pad_Ok (in_shape : list Z) (scale_factor : list Q)
    (target_shape : list Z) (dim : nat) (alignment : string)
    (p : AxisPlan) (scale_factor' : list Q) :
  _calculate_crop_pad in_shape scale_factor target_shape dim alignment
  = Ok (p, scale_factor') ->
  exists i t s,
    in_shape !! (dim + 2)%nat = Some i
    /\ target_shape !! dim = Some t
    /\ scale_factor !! dim = Some s
    /\ plan_axis i s t alignment = Ok p
    /\ scale_factor' = <[dim := corrected_scale p]> scale_factor.
Proof.
  unfold _calculate_crop_pad, getitem.
  destruct (in_shape !! (dim + 2)%nat) as [i|]; simpl; [|discriminate].
  destruct (target_shape !! dim) as [t|]; simpl; [|discriminate].
  destruct (scale_factor !! dim) as [s|]; simpl; [|discriminate].
  destruct (plan_axis i s t alignment) as [q|] eqn:Hq; simpl; [|discriminate].
  intros [= <- <-]. exists i, t, s. auto.
Qed.

Section ModuleFacts.
Context {Tensor : Type} (ops : TorchOps Tensor).

Lemma Zoom2d_interpolate_alignments (self : ZoomModule) (data : Tensor)
    (scale_factor : list Q) (target_shape : list Z) :
  Zoom2d_interpolate ops self data scale_factor target_shape
  = if negb (length scale_factor =? 2)%nat then Raise ValueError
    else
      let '(vertical_alignment, horizontal_alignment) :=
        alignments_2d (_crop_position self) in
      '(tb, scale_factor) ← _calculate_crop_pad
          (shape ops data) scale_factor target_shape 0 vertical_alignment;
      '(lr, scale_factor) ← _calculate_crop_pad
          (shape ops data) scale_factor target_shape 1 horizontal_alignment;
      data ← crop_spatial ops data [plan_slice tb; plan_slice lr];
      data ← resize_and_pad ops data
          [interp_target_size tb; interp_target_size lr]
          (Some false) (_mode self)
          [padding tb; padding lr]
          (pair_list (padding lr) ++ pair_list (padding tb))%list;
      Ok (data, scale_factor).
Proof.
  unfold Zoom2d_interpolate, alignments_2d.
  destruct (_crop_position self =? "center")%string;
    destruct (startswith _ _); destruct (endswith _ _); reflexivity.
Qed.

Lemma Zoom3d_interpolate_alignments (self : ZoomModule) (data : Tensor)
    (scale_factor : list Q) (target_shape : list Z) :
  Zoom3d_interpolate ops self data scale_factor target_shape
  = if negb (length scale_factor =? 3)%nat then Raise ValueError
    else
      let '(depth_alignment, vertical_alignment, horizontal_alignment) :=
        alignments_3d (_crop_position self) in
      '(fb, scale_factor) ← _calculate_crop_pad
          (shape ops data) scale_factor target_shape 0 depth_alignment;
      '(tb, scale_factor) ← _calculate_crop_pad
          (shape ops data) scale_factor target_shape 1 vertical_alignment;
      '(lr, scale_factor) ← _calculate_crop_pad
          (shape ops data) scale_factor target_shape 2 horizontal_alignment;
      data ← crop_spatial ops data
          [plan_slice fb; plan_slice tb; plan_slice lr];
      data ← resize_and_pad ops data
          [interp_target_size fb; interp_target_size tb; interp_target_size lr]
          (if negb (_mode self =? "nearest")%string then Some false else None)
          (_mode self)
          [padding fb; padding tb; padding lr]
          (pair_list (padding fb) ++ pair_list (padding lr)
           ++ pair_list (padding tb))%list;
      Ok (data, scale_factor).
Proof.
  unfold Zoom3d_interpolate, alignments_3d.
  destruct (_crop_position self =? "center")%string;
    destruct (startswith _ _); destruct (contains _ _);
    destruct (endswith _ _); reflexivity.
Qed.

Lemma Zoom2d_interpolate_Ok (self : ZoomModule) (data out : Tensor)
    (scale_factor scale_out : list Q) (target_shape : list Z) :
  Zoom2d_interpolate ops self data scale_factor target_shape
  = Ok (out, scale_out) ->
  exists s0 s1 i0 i1 t0 t1 p0 p1 cropped,
    scale_factor = [s0; s1]
    /\ shape ops data !! 2%nat = Some i0 /\ shape ops data !! 3%nat = Some i1
    /\ target_shape !! 0%nat = Some t0 /\ target_shape !! 1%nat = Some t1
    /\ plan_axis i0 s0 t0 (fst (alignments_2d (_crop_position self))) = Ok p0
    /\ plan_axis i1 s1 t1 (snd (alignments_2d (_crop_position self))) = Ok p1
    /\ scale_out = [corrected_scale p0; corrected_scale p1]
    /\ crop_spatial ops data [plan_slice p0; plan_slice p1] = Ok cropped
    /\ resize_and_pad ops cropped
         [interp_target_size p0; interp_target_size p1]
         (Some false) (_mode self) [padding p0; padding p1]
         (pair_list (padding p1) ++ pair_list (padding p0))%list = Ok out.
Proof.
  rewrite Zoom2d_interpolate_alignments.
  destruct scale_factor as [|s0 [|s1 [|]]]; try discriminate. simpl negb.
  cbv iota. destruct (alignments_2d (_crop_position self)) as [v h].
  destruct (_calculate_crop_pad (shape ops data) [s0; s1] target_shape 0 v)
    as [[p0 sf0]|] eqn:H0; simpl; [|discriminate].
  apply calculate_crop_pad_Ok in H0
    as (i0 & t0 & s0' & Hi0 & Ht0 & [= <-] & Hp0 & ->).
  destruct (_calculate_crop_pad (shape ops data) _ target_shape 1 h)
    as [[p1 sf1]|] eqn:H1; simpl; [|discriminate].
  apply calculate_crop_pad_Ok in H1
    as (i1 & t1 & s1' & Hi1 & Ht1 & [= <-] & Hp1 & ->).
  destruct (crop_spatial ops data _) as [cropped|] eqn:Hc; simpl;
    [|discriminate].
  destruct (resize_and_pad ops cropped _ _ _ _ _) as [res|] eqn:Hres; simpl;
    [|discriminate].
  intros [= <- <-].
  exists s0, s1, i0, i1, t0, t1, p0, p1, cropped. repeat split; assumption.
Qed.

(** The axes of a 2-d zoom are planned one by one.  When
    [Zoom2d._interpolate] returns, its scale factor had two entries, each
    axis was planned from its own input size, scale factor and target size
    under the alignment of the crop position, and the returned scale
    vector holds the two corrected scales: storing the first does not
    touch what the second call reads. *)
Theorem zoom2d_axes_independent (self : ZoomModule) (data out : Tensor)
    (scale_factor scale_out : list Q) (target_shape : list Z) :
  Zoom2d_interpolate ops self data scale_factor target_shape
  = Ok (out, scale_out) ->
  exists s0 s1 i0 i1 t0 t1 p0 p1,
    scale_factor = [s0; s1]
    /\ shape ops data !! 2%nat = Some i0 /\ shape ops data !! 3%nat = Some i1
    /\ target_shape !! 0%nat = Some t0 /\ target_shape !! 1%nat = Some t1
    /\ plan_axis i0 s0 t0 (fst (alignments_2d (_crop_position self))) = Ok p0
    /\ plan_axis i1 s1 t1 (snd (alignments_2d (_crop_position self))) = Ok p1
    /\ scale_out = [corrected_scale p0; corrected_scale p1].
Proof.
  intros H. apply Zoom2d_interpolate_Ok in H
    as (s0 & s1 & i0 & i1 & t0 & t1 & p0 & p1 & cropped & H).
  exists s0, s1, i0, i1, t0, t1, p0, p1. tauto.
Qed.

Lemma Zoom3d_interpolate_Ok (self : ZoomModule) (data out : Tensor)
    (scale_factor scale_out : list Q) (target_shape : list Z) :
  Zoom3d_interpolate ops self data scale_factor target_shape
  = Ok (out, scale_out) ->
  exists s0 s1 s2 i0 i1 i2 t0 t1 t2 p0 p1 p2 cropped,
    scale_factor = [s0; s1; s2]
    /\ shape ops data !! 2%nat = Some i0 /\ shape ops data !! 3%nat = Some i1
    /\ shape ops data !! 4%nat = Some i2
    /\ target_shape !! 0%nat = Some t0 /\ target_shape !! 1%nat = Some t1
    /\ target_shape !! 2%nat = Some t2
    /\ plan_axis i0 s0 t0
         (fst (fst (alignments_3d (_crop_position self)))) = Ok p0
    /\ plan_axis i1 s1 t1
         (snd (fst (alignments_3d (_crop_position self)))) = Ok p1
    /\ plan_axis i2 s2 t2 (snd (alignments_3d (_crop_position self))) = Ok p2
    /\ scale_out = [corrected_scale p0; corrected_scale p1; corrected_scale p2]
    /\ crop_spatial ops data [plan_slice p0; plan_slice p1; plan_slice p2]
       = Ok cropped
    /\ resize_and_pad ops cropped
         [interp_target_size p0; interp_target_size p1; interp_target_size p2]
         (if negb (_mode self =? "nearest")%string then Some false else None)
         (_mode self) [padding p0; padding p1; padding p2]
         (pair_list (padding p0) ++ pair_list (padding p2)
          ++ pair_list (padding p1))%list = Ok out.
Proof.
  rewrite Zoom3d_interpolate_alignments.
  destruct scale_factor as [|s0 [|s1 [|s2 [|]]]]; try discriminate.
  simpl negb. cbv iota.
  destruct (alignments_3d (_crop_position self)) as [[d v] h].
  destruct (_calculate_crop_pad (shape ops data) [s0; s1; s2] target_shape 0 d)
    as [[p0 sf0]|] eqn:H0; simpl; [|discriminate].
  apply calculate_crop_pad_Ok in H0
    as (i0 & t0 & s0' & Hi0 & Ht0 & [= <-] & Hp0 & ->).
  destruct (_calculate_crop_pad (shape ops data) _ target_shape 1 v)
    as [[p1 sf1]|] eqn:H1; simpl; [|discriminate].
  apply calculate_crop_pad_Ok in H1
    as (i1 & t1 & s1' & Hi1 & Ht1 & [= <-] & Hp1 & ->).
  destruct (_calculate_crop_pad (shape ops data) _ target_shape 2 h)
    as [[p2 sf2]|] eqn:H2; simpl; [|discriminate].
  apply calculate_crop_pad_Ok in H2
    as (i2 & t2 & s2' & Hi2 & Ht2 & [= <-] & Hp2 & ->).
  destruct (crop_spatial ops data _) as [cropped|] eqn:Hc; simpl;
    [|discriminate].
  destruct (resize_and_pad ops cropped _ _ _ _ _) as [res|] eqn:Hres; simpl;
    [|discriminate].
  intros [= <- <-].
  exists s0, s1, s2, i0, i1, i2, t0, t1, t2, p0, p1, p2, cropped.
  repeat split; assumption.
Qed.

(** The axes of a 3-d zoom are planned one by one: as for the 2-d zoom,
    with three axes. *)
Theorem zoom3d_axes_independent (self : ZoomModule) (data out : Tensor)
    (scale_factor scale_out : list Q) (target_shape : list Z) :
  Zoom3d_interpolate ops self data scale_factor target_shape
  = Ok (out, scale_out) ->
  exists s0 s1 s2 i0 i1 i2 t0 t1 t2 p0 p1 p2,
    scale_factor = [s0; s1; s2]
    /\ shape ops data !! 2%nat = Some i0 /\ shape ops data !! 3%nat = Some i1
    /\ shape ops data !! 4%nat = Some i2
    /\ target_shape !! 0%nat = Some t0 /\ target_shape !! 1%nat = Some t1
    /\ target_shape !! 2%nat = Some t2
    /\ plan_axis i0 s0 t0
         (fst (fst (alignments_3d (_crop_position self)))) = Ok p0
    /\ plan_axis i1 s1 t1
         (snd (fst (alignments_3d (_crop_position self)))) = Ok p1
    /\ plan_axis i2 s2 t2 (snd (alignments_3d (_crop_position self))) = Ok p2
    /\ scale_out = [corrected_scale p0; corrected_scale p1; corrected_scale p2].
Proof.
  intros H. apply Zoom3d_interpolate_Ok in H
    as (s0 & s1 & s2 & i0 & i1 & i2 & t0 & t1 & t2 & p0 & p1 & p2 & cropped
        & H).
  exists s0, s1, s2, i0, i1, i2, t0, t1, t2, p0, p1, p2. tauto.
Qed.

End ModuleFacts.

Section ForwardFacts.
Context {Tensor : Type} (ops : TorchOps Tensor).

Lemma interpolate_scale_length (self : ZoomModule) (data out : Tensor)
    (scale_factor scale_out : list Q) (target_shape : list Z) :
  _interpolate ops self data scale_factor target_shape = Ok (out, scale_out) ->
  Z.of_nat (length scale_out) = _N self.
Proof.
  unfold _interpolate, _N. destruct (zclass self); [discriminate| |].
  - intros H. apply Zoom2d_interpolate_Ok in H
      as (s0 & s1 & i0 & i1 & t0 & t1 & p0 & p1 & c & _ & _ & _ & _ & _ & _
          & _ & -> & _).
    reflexivity.
  - intros H. apply Zoom3d_interpolate_Ok in H
      as (s0 & s1 & s2 & i0 & i1 & i2 & t0 & t1 & t2 & p0 & p1 & p2 & c
          & _ & _ & _ & _ & _ & _ & _ & _ & _ & _ & -> & _).
    reflexivity.
Qed.

Lemma forward_loop_scales (self : ZoomModule) (target_shape : list Z)
    (rescale : bool) (tensors : list Tensor) :
  forall (runs : list (list Q * Z)) (interp : list Tensor)
         (scales_out : list (list Q)),
    length tensors = length runs ->
    forward_loop ops self target_shape rescale
      (zip tensors (zip (map fst runs) (map snd runs)))
    = Ok (interp, scales_out) ->
    length scales_out = length (expand_runs runs)
    /\ Forall (fun v => Z.of_nat (length v) = _N self) scales_out.
Proof.
  induction tensors as [|tensor tensors IH];
    intros [|[scale_f num] runs] interp scales_out Hlen; try discriminate.
  - intros [= <- <-]. split; [reflexivity|constructor].
  - cbn [map zip_with fst snd forward_loop].
    destruct (if rescale then reciprocals scale_f else Ok scale_f)
      as [scale_f'|]; simpl; [|discriminate].
    destruct (_interpolate ops self tensor scale_f' target_shape)
      as [[image sf]|] eqn:Hint; simpl; [|discriminate].
    destruct (forward_loop ops self target_shape rescale _)
      as [[interp' scales']|] eqn:Hloop; simpl; [|discriminate].
    intros [= <- <-].
    destruct (IH runs interp' scales' ltac:(simpl in Hlen; lia) Hloop)
      as [Hl Hall].
    apply interpolate_scale_length in Hint.
    unfold expand_runs. cbn [flat_map fst snd].
    rewrite py_list_mul_singleton, !length_app, !length_replicate.
    split; [unfold expand_runs in Hl; lia|].
    apply Forall_app. split; [|exact Hall].
    apply Forall_replicate. exact Hint.
Qed.

Lemma forward_Ok (self : ZoomModule) (input_tensor out : Tensor)
    (scale_factors : sf_input) (target_shape : list Z) (rescale : bool)
    (scales_out : list (list Q)) :
  split_keeps_count ops ->
  forward ops self input_tensor scale_factors target_shape rescale
  = Ok (out, scales_out) ->
  exists batch_size runs,
    shape ops input_tensor !! 0%nat = Some batch_size
    /\ Z.of_nat (length (shape ops input_tensor)) = 2 + _N self
    /\ target_shape <> []
    /\ _fix_scale_factors (_N self) scale_factors batch_size = Ok runs
    /\ runs <> []
    /\ length scales_out = length (expand_runs runs)
    /\ Forall (fun v => Z.of_nat (length v) = _N self) scales_out.
Proof.
  intros Hsplit. unfold forward.
  destruct (_N self =? -1); [discriminate|].
  destruct (Z.eqb_spec (Z.of_nat (length (shape ops input_tensor)))
              (2 + _N self)) as [Hrank|]; [|discriminate]. simpl.
  destruct target_shape as [|t0 target_shape]; [discriminate|]. simpl.
  unfold getitem.
  destruct (shape ops input_tensor !! 0%nat) as [batch_size|]; simpl;
    [|discriminate].
  destruct (_fix_scale_factors (_N self) scale_factors batch_size)
    as [runs|] eqn:Hruns; simpl; [|discriminate].
  destruct runs as [|r runs]; [discriminate|].
  cbn [length Nat.eqb].
  destruct (torch_split ops input_tensor _) as [tensors|] eqn:Hs; simpl;
    [|discriminate].
  apply Hsplit in Hs. rewrite length_map in Hs.
  destruct (forward_loop ops self (t0 :: target_shape) rescale _)
    as [[interp scales]|] eqn:Hloop; simpl; [|discriminate].
  destruct (torch_cat ops interp) as [res|]; simpl; [|discriminate].
  intros [= <- <-].
  destruct (forward_loop_scales self (t0 :: target_shape) rescale tensors
              (r :: runs) interp scales Hs Hloop) as [Hl Hall].
  exists batch_size, (r :: runs). repeat split; try assumption; discriminate.
Qed.

End ForwardFacts.

(** One corrected scale vector per sample.  Provided [torch.split] hands
    back one chunk per run, a [forward] that returns gives, for a
    sequence of scale factors, exactly one corrected scale vector per
    entry of the sequence, each with as many entries as the module has
    spatial axes; the module is not the abstract base, the input has rank
    [N + 2] and the target shape is not empty. *)
Theorem forward_scales_per_sample {Tensor : Type} (ops : TorchOps Tensor)
    (self : ZoomModule) (input_tensor out : Tensor)
    (entries : list sf_entry) (target_shape : list Z) (rescale : bool)
    (scales_out : list (list Q)) :
  split_keeps_count ops ->
  forward ops self input_tensor (SIterable entries) target_shape rescale
  = Ok (out, scales_out) ->
  length scales_out = length entries
  /\ Forall (fun v => Z.of_nat (length v) = _N self) scales_out
  /\ zclass self <> ZoomNd_base
  /\ Z.of_nat (length (shape ops input_tensor)) = 2 + _N self
  /\ target_shape <> [].
Proof.
  intros Hsplit Hfwd.
  assert (Hcls : zclass self <> ZoomNd_base).
  { intros Hc. unfold forward, _N in Hfwd. rewrite Hc in Hfwd. discriminate. }
  apply forward_Ok in Hfwd
    as (b & runs & _ & Hrank & Htgt & Hruns & _ & Hlen & Hall); [|exact Hsplit].
  repeat split; try assumption.
  rewrite Hlen. apply Nat2Z.inj. simpl in Hruns.
  destruct (fix_loop_lengths _ _ _ _ _ Hruns ltac:(lia)) as [Hpos Hsum].
  rewrite length_expand_runs by exact Hpos.
  rewrite Hsum by (right; right; reflexivity). lia.
Qed.

(** ** On tensors known by their shape *)

Lemma shape_ops_split_keeps_count : split_keeps_count shape_ops.
Proof.
  intros t sizes chunks. simpl. destruct t as [|b rest]; [discriminate|].
  destruct (_ && _); [|discriminate]. intros [= <-]. apply length_map.
Qed.

Lemma forward_scales_per_sample_witness :
  let self := mkZoom Zoom2d_class "bilinear" "bottom_right" in
  let entries := [ENumber (1 # 2); ENumber (1 # 2); ESequence [2; 1 # 4]%Q] in
  let scales_out := [[9 # 4; 9 # 4]; [9 # 4; 9 # 4]; [4 # 8; 9 # 2]] in
  forward shape_ops self [3; 1; 9; 9] (SIterable entries) [8; 8] true
  = Ok ([3; 1; 8; 8], scales_out)
  /\ length scales_out = length entries.
Proof.
  intros self entries scales_out. split; [reflexivity|].
  exact (proj1 (forward_scales_per_sample shape_ops self [3; 1; 9; 9]
                  [3; 1; 8; 8] entries [8; 8] true scales_out
                  shape_ops_split_keeps_count eq_refl)).
Defined.

Lemma forward_loop_rescaled_nonzero {Tensor : Type} (ops : TorchOps Tensor)
    (self : ZoomModule) (target_shape : list Z) (tensors : list Tensor) :
  forall (runs : list (list Q * Z)) (interp : list Tensor)
         (scales_out : list (list Q)),
    length tensors = length runs ->
    forward_loop ops self target_shape true
      (zip tensors (zip (map fst runs) (map snd runs)))
    = Ok (interp, scales_out) ->
    Forall (fun r => Forall nonzero (fst r)) runs.
Proof.
  induction tensors as [|tensor tensors IH];
    intros [|[scale_f num] runs] interp scales_out Hlen; try discriminate.
  - intros _. constructor.
  - cbn [map zip_with fst snd forward_loop].
    destruct (reciprocals scale_f) as [scale_f'|] eqn:Hrec; simpl;
      [|discriminate].
    destruct (_interpolate ops self tensor scale_f' target_shape)
      as [[image sf]|]; simpl; [|discriminate].
    destruct (forward_loop ops self target_shape true _)
      as [[interp' scales']|] eqn:Hloop; simpl; [|discriminate].
    intros _. constructor.
    + apply reciprocals_Ok in Hrec. apply Hrec.
    + eapply IH; [|exact Hloop]. simpl in Hlen. lia.
Qed.

(** [rescale] does not take a zero.  Provided [torch.split] hands back one
    chunk per run, a [forward] with [rescale=True] that returns had no
    zero in any scale vector of the normaliser's runs ([1 / 0] raises
    [ZeroDivisionError]); in particular it never returns for the single
    number 0. *)
Theorem rescale_rejects_zero {Tensor : Type} (ops : TorchOps Tensor)
    (self : ZoomModule) (input_tensor out : Tensor)
    (scale_factors : sf_input) (target_shape : list Z)
    (scales_out : list (list Q)) :
  split_keeps_count ops ->
  forward ops self input_tensor scale_factors target_shape true
  = Ok (out, scales_out) ->
  (exists batch_size runs,
      shape ops input_tensor !! 0%nat = Some batch_size
      /\ _fix_scale_factors (_N self) scale_factors batch_size = Ok runs
      /\ Forall (fun r => Forall nonzero (fst r)) runs)
  /\ (forall x, scale_factors = SNumber x -> nonzero x).
Proof.
  intros Hsplit Hfwd.
  assert (Hruns : exists batch_size runs,
             shape ops input_tensor !! 0%nat = Some batch_size
             /\ _fix_scale_factors (_N self) scale_factors batch_size = Ok runs
             /\ Forall (fun r => Forall nonzero (fst r)) runs).
  { unfold forward in Hfwd.
    destruct (_N self =? -1); [discriminate|].
    destruct (negb _); [discriminate|].
    destruct (length target_shape =? 0)%nat; [discriminate|].
    unfold getitem in Hfwd.
    destruct (shape ops input_tensor !! 0%nat) as [batch_size|];
      simpl in Hfwd; [|discriminate].
    destruct (_fix_scale_factors (_N self) scale_factors batch_size)
      as [runs|] eqn:Hruns; simpl in Hfwd; [|discriminate].
    destruct (length runs =? 0)%nat; [discriminate|].
    destruct (torch_split ops input_tensor _) as [tensors|] eqn:Hs;
      simpl in Hfwd; [|discriminate].
    apply Hsplit in Hs. rewrite length_map in Hs.
    destruct (forward_loop ops self target_shape true _)
      as [[interp scales]|] eqn:Hloop; simpl in Hfwd; [|discriminate].
    exists batch_size, runs. split; [reflexivity|]. split; [exact Hruns|].
    exact (forward_loop_rescaled_nonzero ops self target_shape tensors runs
             interp scales Hs Hloop). }
  split; [exact Hruns|].
  intros x ->. destruct Hruns as (b & runs & _ & Hr & Hnz).
  assert (Hcls : zclass self <> ZoomNd_base).
  { intros Hc. unfold forward, _N in Hfwd. rewrite Hc in Hfwd. discriminate. }
  simpl in Hr. injection Hr as <-.
  inversion Hnz as [|? ? Hv _]; subst. simpl in Hv.
  rewrite py_list_mul_singleton in Hv.
  unfold _N in Hv. destruct (zclass self); [contradiction| |];
    simpl in Hv; inversion Hv; assumption.
Qed.

(** The theorem on a 2-d module and a batch of three samples. *)
Lemma rescale_rejects_zero_witness :
  let self := mkZoom Zoom2d_class "bilinear" "bottom_right" in
  let scale_factors :=
    SIterable [ENumber (1 # 2); ENumber (1 # 2); ESequence [2; 1 # 4]%Q] in
  exists batch_size runs,
    [3; 1; 9; 9] !! 0%nat = Some batch_size
    /\ _fix_scale_factors 2 scale_factors batch_size = Ok runs
    /\ Forall (fun r => Forall nonzero (fst r)) runs.
Proof.
  intros self scale_factors.
  exact (proj1 (rescale_rejects_zero shape_ops self [3; 1; 9; 9]
                  [3; 1; 8; 8] scale_factors [8; 8]
                  [[9 # 4; 9 # 4]; [9 # 4; 9 # 4]; [4 # 8; 9 # 2]]
                  shape_ops_split_keeps_count eq_refl)).
Defined.

Lemma zoom2d_axes_independent_witness :
  let self := mkZoom Zoom2d_class "bilinear" "bottom_left" in
  exists p0 p1,
    plan_axis 9 2 4 "from_end" = Ok p0
    /\ plan_axis 4 1 10 "from_start" = Ok p1
    /\ [8 # 4; 4 # 4] = [corrected_scale p0; corrected_scale p1].
Proof.
  intros self.
  destruct (zoom2d_axes_independent shape_ops self [1; 1; 9; 4] [1; 1; 4; 10]
              [2; 1]%Q [8 # 4; 4 # 4] [4; 10] eq_refl)
    as (s0 & s1 & i0 & i1 & t0 & t1 & p0 & p1 & Hs & Hi0 & Hi1 & Ht0 & Ht1
        & Hp0 & Hp1 & Hout).
  injection Hs as <- <-. injection Hi0 as <-. injection Hi1 as <-.
  injection Ht0 as <-. injection Ht1 as <-.
  exists p0, p1. split; [exact Hp0|]. split; [exact Hp1|exact Hout].
Defined.

Lemma zoom3d_axes_independent_witness :
  let self := mkZoom Zoom3d_class "nearest" "back_bottom_left" in
  exists p0 p1 p2,
    plan_axis 9 1 8 "from_end" = Ok p0
    /\ plan_axis 9 1 8 "from_end" = Ok p1
    /\ plan_axis 7 1 7 "from_start" = Ok p2
    /\ [8 # 8; 8 # 8; 7 # 7]
       = [corrected_scale p0; corrected_scale p1; corrected_scale p2].
Proof.
  intros self.
  destruct (zoom3d_axes_independent shape_ops self [2; 1; 9; 9; 7]
              [2; 1; 8; 8; 7] [1; 1; 1]%Q [8 # 8; 8 # 8; 7 # 7] [8; 8; 7]
              eq_refl)
    as (s0 & s1 & s2 & i0 & i1 & i2 & t0 & t1 & t2 & p0 & p1 & p2 & Hs
        & Hi0 & Hi1 & Hi2 & Ht0 & Ht1 & Ht2 & Hp0 & Hp1 & Hp2 & Hout).
  injection Hs as <- <- <-.
  injection Hi0 as <-. injection Hi1 as <-. injection Hi2 as <-.
  injection Ht0 as <-. injection Ht1 as <-. injection Ht2 as <-.
  exists p0, p1, p2. repeat split; assumption.
Defined.

(** On shapes, [resize_and_pad] first brings the spatial extents to
    [size], then pads when some pair is not [(0, 0)]. *)
Lemma shape_resize_and_pad (cropped size : list Z)
    (align_corners : option bool) (mode : string) (pads : list (Z * Z))
    (pad_arg : list Z) :
  length (drop 2 cropped) = length size ->
  resize_and_pad shape_ops cropped size align_corners mode pads pad_arg
  = Ok (if existsb (fun p => negb (is_zero_pad p)) pads
        then rev (pad_from_last (rev (take 2 cropped ++ size)) pad_arg)
        else (take 2 cropped ++ size)%list).
Proof.
  intros Hlen. unfold resize_and_pad, list_Z_eqb. simpl. rewrite Hlen.
  rewrite Nat.eqb_refl.
  destruct (bool_decide_reflect (drop 2 cropped = size)) as [Heq|Hne]; simpl.
  - subst size. rewrite take_drop.
    destruct (existsb _ pads); reflexivity.
  - destruct (existsb _ pads); reflexivity.
Qed.

(** Equality of two lists of integers of the same length, entry by
    entry. *)
Ltac list_Z_eq :=
  repeat (apply (f_equal2 (@cons Z)); [lia|]); reflexivity.

Lemma zero_pads_total (p : AxisPlan) :
  is_zero_pad (padding p) = true -> pad_before p = 0 /\ pad_after p = 0.
Proof.
  unfold is_zero_pad, pad_before, pad_after. intros H.
  apply andb_true_iff in H as [H1 H2]. lia.
Qed.

Lemma Zoom2d_interpolate_shape (self : ZoomModule) (b c i0 i1 : Z)
    (scale_factor scale_out : list Q) (t0 t1 : Z) (out : list Z) :
  Zoom2d_interpolate shape_ops self [b; c; i0; i1] scale_factor [t0; t1]
  = Ok (out, scale_out) ->
  out = [b; c; t0; t1].
Proof.
  intros H. apply Zoom2d_interpolate_Ok in H
    as (s0 & s1 & j0 & j1 & u0 & u1 & p0 & p1 & cropped & _ & [= <-] & [= <-]
        & [= <-] & [= <-] & Hp0 & Hp1 & _ & Hc & Hres).
  injection Hc as <-. rewrite shape_resize_and_pad in Hres by reflexivity.
  injection Hres as <-.
  apply plan_extents_sum in Hp0, Hp1.
  cbn [existsb take drop app].
  destruct (is_zero_pad (padding p0)) eqn:Hz0;
    [destruct (is_zero_pad (padding p1)) eqn:Hz1|]; simpl.
  - apply zero_pads_total in Hz0, Hz1. list_Z_eq.
  - unfold pad_before, pad_after in *. list_Z_eq.
  - unfold pad_before, pad_after in *. list_Z_eq.
Qed.

(** A 2-d zoom gives the target shape.  On tensors known by their shape,
    whenever [Zoom2d._interpolate] returns for a rank-4 input and a
    two-entry target shape, the result has the batch and channel extents
    of the input and the spatial extents of the target shape. *)
Theorem zoom2d_output_has_target_shape (self : ZoomModule) (b c i0 i1 : Z)
    (scale_factor scale_out : list Q) (t0 t1 : Z) (out : list Z) :
  Zoom2d_interpolate shape_ops self [b; c; i0; i1] scale_factor [t0; t1]
  = Ok (out, scale_out) ->
  out = [b; c; t0; t1].
Proof. apply Zoom2d_interpolate_shape. Qed.

Lemma zoom2d_output_has_target_shape_witness :
  exists out scale_out,
    Zoom2d_interpolate shape_ops (mkZoom Zoom2d_class "bilinear" "center")
      [3; 1; 9; 4] [2; 1]%Q [4; 10] = Ok (out, scale_out)
    /\ out = [3; 1; 4; 10].
Proof.
  eexists _, _. split; [reflexivity|].
  exact (zoom2d_output_has_target_shape
           (mkZoom Zoom2d_class "bilinear" "center") 3 1 9 4 [2; 1]%Q
           [8 # 4; 4 # 4] 4 10 [3; 1; 4; 10] eq_refl).
Defined.

(** Where a 3-d zoom puts its padding.  On tensors known by their shape,
    whenever [Zoom3d._interpolate] returns for a rank-5 input and a
    three-entry target shape, the depth, height and width of the result
    are [t0 - P0 + P1], [t1 - P1 + P2] and [t2 - P2 + P0], where [Pk] is
    the total padding planned for axis [k] (the pad list is given as
    depth, horizontal, vertical, and [F.pad] reads it from the last axis
    backwards).  The result has the target shape when the three totals
    are equal, in particular when no axis is padded. *)
Theorem zoom3d_output_shape (self : ZoomModule) (b c i0 i1 i2 : Z)
    (scale_factor scale_out : list Q) (t0 t1 t2 : Z) (out : list Z) :
  Zoom3d_interpolate shape_ops self [b; c; i0; i1; i2] scale_factor
    [t0; t1; t2] = Ok (out, scale_out) ->
  exists s0 s1 s2 p0 p1 p2,
    scale_factor = [s0; s1; s2]
    /\ plan_axis i0 s0 t0
         (fst (fst (alignments_3d (_crop_position self)))) = Ok p0
    /\ plan_axis i1 s1 t1
         (snd (fst (alignments_3d (_crop_position self)))) = Ok p1
    /\ plan_axis i2 s2 t2 (snd (alignments_3d (_crop_position self))) = Ok p2
    /\ out = [b; c;
              t0 - pad_total p0 + pad_total p1;
              t1 - pad_total p1 + pad_total p2;
              t2 - pad_total p2 + pad_total p0]
    /\ (pad_total p0 = pad_total p1 -> pad_total p1 = pad_total p2 ->
        out = [b; c; t0; t1; t2]).
Proof.
  intros H. apply Zoom3d_interpolate_Ok in H
    as (s0 & s1 & s2 & j0 & j1 & j2 & u0 & u1 & u2 & p0 & p1 & p2 & cropped
        & -> & [= <-] & [= <-] & [= <-] & [= <-] & [= <-] & [= <-]
        & Hp0 & Hp1 & Hp2 & _ & Hc & Hres).
  injection Hc as <-. rewrite shape_resize_and_pad in Hres by reflexivity.
  injection Hres as <-.
  exists s0, s1, s2, p0, p1, p2.
  split; [reflexivity|]. split; [exact Hp0|]. split; [exact Hp1|].
  split; [exact Hp2|].
  apply plan_extents_sum in Hp0, Hp1, Hp2.
  assert (Hout : (if existsb (fun p => negb (is_zero_pad p))
                       [padding p0; padding p1; padding p2]
                  then rev (pad_from_last
                              (rev (take 2 [b; c; slice_length i0 (plan_slice p0);
                                            slice_length i1 (plan_slice p1);
                                            slice_length i2 (plan_slice p2)]
                                    ++ [interp_target_size p0;
                                        interp_target_size p1;
                                        interp_target_size p2]))
                              (pair_list (padding p0) ++ pair_list (padding p2)
                               ++ pair_list (padding p1)))
                  else (take 2 [b; c; slice_length i0 (plan_slice p0);
                                slice_length i1 (plan_slice p1);
                                slice_length i2 (plan_slice p2)]
                        ++ [interp_target_size p0; interp_target_size p1;
                            interp_target_size p2])%list)
                 = [b; c;
                    t0 - pad_total p0 + pad_total p1;
                    t1 - pad_total p1 + pad_total p2;
                    t2 - pad_total p2 + pad_total p0]).
  { unfold pad_total. cbn [existsb take drop app].
    destruct (is_zero_pad (padding p0)) eqn:Hz0;
      [destruct (is_zero_pad (padding p1)) eqn:Hz1;
       [destruct (is_zero_pad (padding p2)) eqn:Hz2|]|]; simpl.
    - apply zero_pads_total in Hz0, Hz1, Hz2. list_Z_eq.
    - unfold pad_before, pad_after in *. list_Z_eq.
    - unfold pad_before, pad_after in *. list_Z_eq.
    - unfold pad_before, pad_after in *. list_Z_eq. }
  split; [exact Hout|].
  intros H01 H12. etransitivity; [exact Hout|]. list_Z_eq.
Qed.

Lemma zoom3d_output_shape_witness :
  Zoom3d_interpolate shape_ops
    (mkZoom Zoom3d_class "nearest" "front_top_left")
    [2; 1; 9; 9; 7] [1; 1; 1]%Q [8; 8; 10]
  = Ok ([2; 1; 8; 11; 7], [8 # 8; 8 # 8; 7 # 7])
  /\ exists p0 p1 p2,
      plan_axis 9 1 8 "from_start" = Ok p0
      /\ plan_axis 9 1 8 "from_start" = Ok p1
      /\ plan_axis 7 1 10 "from_start" = Ok p2
      /\ [2; 1; 8; 11; 7]
         = [2; 1; 8 - pad_total p0 + pad_total p1;
            8 - pad_total p1 + pad_total p2;
            10 - pad_total p2 + pad_total p0].
Proof.
  split; [reflexivity|].
  destruct (zoom3d_output_shape
              (mkZoom Zoom3d_class "nearest" "front_top_left")
              2 1 9 9 7 [1; 1; 1]%Q [8 # 8; 8 # 8; 7 # 7] 8 8 10
              [2; 1; 8; 11; 7] eq_refl)
    as (s0 & s1 & s2 & p0 & p1 & p2 & Hs & Hp0 & Hp1 & Hp2 & Hout & _).
  injection Hs as <- <- <-.
  exists p0, p1, p2. repeat split; assumption.
Defined.

Lemma forward_loop_shapes_2d (self : ZoomModule) (c i0 i1 t0 t1 : Z)
    (rescale : bool) :
  zclass self = Zoom2d_class ->
  forall (runs : list (list Q * Z)) (interp : list (list Z))
         (scales_out : list (list Q)),
    forward_loop shape_ops self [t0; t1] rescale
      (zip (map (fun n => n :: [c; i0; i1]) (map snd runs))
         (zip (map fst runs) (map snd runs)))
    = Ok (interp, scales_out) ->
    interp = map (fun r => [snd r; c; t0; t1]) runs.
Proof.
  intros Hcls. induction runs as [|[scale_f num] runs IH];
    intros interp scales_out.
  - intros [= <- <-]. reflexivity.
  - cbn [map zip_with fst snd forward_loop].
    destruct (if rescale then reciprocals scale_f else Ok scale_f)
      as [scale_f'|]; simpl; [|discriminate].
    unfold _interpolate. rewrite Hcls.
    destruct (Zoom2d_interpolate shape_ops self [num; c; i0; i1] scale_f'
                [t0; t1]) as [[image sf]|] eqn:Hint; simpl; [|discriminate].
    apply Zoom2d_interpolate_shape in Hint. subst image.
    destruct (forward_loop shape_ops self [t0; t1] rescale _)
      as [[interp' scales']|] eqn:Hloop; simpl; [|discriminate].
    intros [= <- <-]. rewrite (IH interp' scales' eq_refl). reflexivity.
Qed.

Lemma shape_cat_chunks (c t0 t1 : Z) (r : list Q * Z)
    (runs : list (list Q * Z)) :
  torch_cat shape_ops (map (fun r => [snd r; c; t0; t1]) (r :: runs))
  = Ok [sum_Z (map snd (r :: runs)); c; t0; t1].
Proof.
  simpl.
  assert (Hall : forallb (fun u => list_Z_eqb (tail u) [c; t0; t1])
                   (map (fun r0 : list Q * Z => [r0.2; c; t0; t1]) runs)
                 = true).
  { apply forallb_forall. intros u Hu.
    apply in_map_iff in Hu as (r0 & <- & _).
    apply bool_decide_eq_true. reflexivity. }
  replace (list_Z_eqb [c; t0; t1] [c; t0; t1]) with true
    by (symmetry; apply bool_decide_eq_true; reflexivity).
  simpl. rewrite Hall. do 3 f_equal.
  clear. induction runs as [|r0 runs IH]; [reflexivity|].
  simpl. rewrite IH. reflexivity.
Qed.

(** The 2-d driver gives the target shape.  On tensors known by their
    shape, whenever [forward] of a 2-d module returns for an input of
    shape [[b; c; i0; i1]] and target shape [[t0; t1]], the result has shape
    [[b; c; t0; t1]]: the chunks come back in full and with the target
    extents. *)
Theorem forward_2d_output_shape (self : ZoomModule) (b c i0 i1 t0 t1 : Z)
    (scale_factors : sf_input) (rescale : bool) (out : list Z)
    (scales_out : list (list Q)) :
  zclass self = Zoom2d_class ->
  forward shape_ops self [b; c; i0; i1] scale_factors [t0; t1] rescale
  = Ok (out, scales_out) ->
  out = [b; c; t0; t1].
Proof.
  intros Hcls. unfold forward, _N. rewrite Hcls. simpl.
  destruct (_fix_scale_factors 2 scale_factors b) as [runs|]; simpl;
    [|discriminate].
  destruct runs as [|r runs]; [discriminate|]. cbn [length Nat.eqb].
  destruct (forallb _ _ && (sum_Z (map snd (r :: runs)) =? b)) eqn:Hchk;
    [|discriminate].
  apply andb_true_iff in Hchk as [_ Hsum]. apply Z.eqb_eq in Hsum.
  cbn [mbind result_bind].
  destruct (forward_loop shape_ops self [t0; t1] rescale _)
    as [[interp scales]|] eqn:Hloop; [|discriminate].
  apply (forward_loop_shapes_2d self c i0 i1 t0 t1 rescale Hcls (r :: runs))
    in Hloop. subst interp.
  pose proof (shape_cat_chunks c t0 t1 r runs) as Hcat.
  unfold torch_cat, shape_ops in Hcat. cbn [mbind result_bind].
  rewrite Hcat. intros [= <- <-]. f_equal. exact Hsum.
Qed.

Lemma forward_2d_output_shape_witness :
  exists out scales_out,
    forward shape_ops (mkZoom Zoom2d_class "bilinear" "bottom_right")
      [3; 1; 9; 9]
      (SIterable [ENumber (1 # 2); ENumber (1 # 2); ESequence [2; 1 # 4]%Q])
      [8; 8] true = Ok (out, scales_out)
    /\ out = [3; 1; 8; 8].
Proof.
  eexists _, _. split; [reflexivity|].
  exact (forward_2d_output_shape
           (mkZoom Zoom2d_class "bilinear" "bottom_right") 3 1 9 9 8 8
           (SIterable [ENumber (1 # 2); ENumber (1 # 2);
                       ESequence [2; 1 # 4]%Q])
           true [3; 1; 8; 8] _ eq_refl eq_refl).
Defined.
